(** * HawkEye dependency scanner: a shallow embedding of [main.py]

    The development follows the source top to bottom: the Python values and
    string methods the scanner relies on, the checked-out repository tree,
    [DependencyScanner] with its per-directory cache, the advisory lookup and
    the batch driver.  External collaborators ([json.loads], [git clone],
    [requests.get]) are section variables. *)

From Stdlib Require Import ZArith Ascii String Floats.SpecFloat.
From stdpp Require Import base option list gmap strings.

Open Scope string_scope.
#[local] Set Warnings "-register-all,-clear-no-such-hyp".

(** ** Exceptions

    A Python computation either returns or raises; the exception is kept as
    the text [str(e)] that [scan_repository] stores in its error result. *)

Inductive result (A : Type) : Type :=
| Ok (a : A)
| Raise (e : string).
Arguments Ok {A} a.
Arguments Raise {A} e.

#[export] Instance result_ret : MRet result := fun _ a => Ok a.
#[export] Instance result_bind : MBind result := fun _ _ k m =>
  match m with
  | Ok a => k a
  | Raise e => Raise e
  end.

(** [try: body except Exception as e: handler e] *)
Definition try_except {A} (body : result A) (handler : string -> result A) : result A :=
  match body with
  | Ok a => Ok a
  | Raise e => handler e
  end.

(** ** Python strings

    A [str] is modelled by [string]; each [ascii] stands for the code point
    of the same number, so the model covers text in the range U+0000..U+00FF.
    Files are opened in text mode: the content seen by the scanner has its
    line ends already translated to ["\n"]. *)

Definition newline : ascii := "010"%char.
Definition quote : ascii := "034"%char.
Definition hash : ascii := "#"%char.
Definition at_sign : ascii := "@"%char.
Definition comma : ascii := ","%char.

Definition ascii_eqb (a b : ascii) : bool := bool_decide (a = b).

(** [str.isspace] on one character, for code points below 256. *)
Definition py_isspace (c : ascii) : bool :=
  let n := nat_of_ascii c in
  ((9 <=? n) && (n <=? 13) || (28 <=? n) && (n <=? 32) || (n =? 133) || (n =? 160))%nat.

(** [str.lower] on one character, for code points below 256. *)
Definition py_lower_char (c : ascii) : ascii :=
  let n := nat_of_ascii c in
  if ((65 <=? n) && (n <=? 90) || (192 <=? n) && (n <=? 222) && negb (n =? 215))%nat
  then ascii_of_nat (n + 32) else c.

Fixpoint lower (s : string) : string :=
  match s with
  | EmptyString => EmptyString
  | String c s' => String (py_lower_char c) (lower s')
  end.

Fixpoint lstrip_by (p : ascii -> bool) (s : string) : string :=
  match s with
  | EmptyString => EmptyString
  | String c s' => if p c then lstrip_by p s' else s
  end.

Fixpoint rstrip_by (p : ascii -> bool) (s : string) : string :=
  match s with
  | EmptyString => EmptyString
  | String c s' =>
      match rstrip_by p s' with
      | EmptyString => if p c then EmptyString else String c EmptyString
      | r => String c r
      end
  end.

(** [s.strip()] *)
Definition strip (s : string) : string := rstrip_by py_isspace (lstrip_by py_isspace s).

(** [s.strip(c)] for a one-character argument *)
Definition strip_char (c : ascii) (s : string) : string :=
  rstrip_by (ascii_eqb c) (lstrip_by (ascii_eqb c) s).

(** [s.startswith(c)] for a one-character argument *)
Definition startswith (c : ascii) (s : string) : bool :=
  match s with
  | EmptyString => false
  | String d _ => ascii_eqb d c
  end.

(** [s.split(sep)] for a one-character separator; never the empty list. *)
Fixpoint split (sep : ascii) (s : string) : list string :=
  match s with
  | EmptyString => [EmptyString]
  | String c s' =>
      if ascii_eqb c sep then EmptyString :: split sep s'
      else match split sep s' with
           | p :: ps => String c p :: ps
           | [] => [String c EmptyString]
           end
  end.

(** [f.readlines()]: the lines of the content, each with its terminator. *)
Fixpoint readlines (s : string) : list string :=
  match s with
  | EmptyString => []
  | String c s' =>
      if ascii_eqb c newline then String c EmptyString :: readlines s'
      else match readlines s' with
           | l :: ls => String c l :: ls
           | [] => [String c EmptyString]
           end
  end.

Fixpoint is_prefix (p s : string) : bool :=
  match p, s with
  | EmptyString, _ => true
  | String a p', String b s' => ascii_eqb a b && is_prefix p' s'
  | String _ _, EmptyString => false
  end.

(** [needle in hay] on two strings *)
Fixpoint contains (needle hay : string) : bool :=
  is_prefix needle hay ||
  match hay with
  | EmptyString => false
  | String _ hay' => contains needle hay'
  end.

(** truth value of a [str] *)
Definition nonempty (s : string) : bool :=
  match s with
  | EmptyString => false
  | String _ _ => true
  end.

Definition string_eqb (a b : string) : bool := bool_decide (a = b).

(** [x in l] on a list of strings *)
Definition mem (x : string) (l : list string) : bool := bool_decide (x ∈ l).

Arguments ascii_eqb : simpl never.
Arguments string_eqb : simpl never.
Arguments mem : simpl never.

(** ** Python values produced by [json]

    Objects are dictionaries in insertion order; a well-formed dictionary
    has no repeated key. *)

Inductive json : Type :=
| JNull
| JBool (b : bool)
| JInt (n : Z)
| JFloat (x : spec_float)
| JStr (s : string)
| JArr (xs : list json)
| JObj (kvs : list (string * json)).

Definition pydict := list (string * json).

Fixpoint dict_get (k : string) (d : pydict) : option json :=
  match d with
  | [] => None
  | (k', v) :: d' => if string_eqb k' k then Some v else dict_get k d'
  end.

(** [d[k] = v]: an existing key keeps its position, a new key goes last. *)
Fixpoint dict_set (k : string) (v : json) (d : pydict) : pydict :=
  match d with
  | [] => [(k, v)]
  | (k', v') :: d' =>
      if string_eqb k' k then (k', v) :: d' else (k', v') :: dict_set k v d'
  end.

(** [d.update(other)] *)
Definition dict_update (d other : pydict) : pydict :=
  fold_left (fun acc kv => dict_set kv.1 kv.2 acc) other d.

(** truth value of a Python object coming from JSON *)
Definition py_truthy (v : json) : bool :=
  match v with
  | JNull => false
  | JBool b => b
  | JInt n => negb (n =? 0)%Z
  | JFloat (S754_zero _) => false
  | JFloat _ => true
  | JStr s => nonempty s
  | JArr xs => match xs with [] => false | _ => true end
  | JObj kvs => match kvs with [] => false | _ => true end
  end.

Definition is_str (s : string) (v : json) : bool :=
  match v with
  | JStr s' => string_eqb s' s
  | _ => false
  end.

(** [key in obj] for a [str] key *)
Definition py_in (key : string) (obj : json) : result bool :=
  match obj with
  | JObj d => Ok (match dict_get key d with Some _ => true | None => false end)
  | JArr xs => Ok (existsb (is_str key) xs)
  | JStr s => Ok (contains key s)
  | _ => Raise "TypeError: argument is not iterable"
  end.

(** [obj[key]] for a [str] key *)
Definition py_getitem (obj : json) (key : string) : result json :=
  match obj with
  | JObj d => match dict_get key d with
              | Some v => Ok v
              | None => Raise "KeyError"
              end
  | _ => Raise "TypeError: indices must be integers"
  end.

(** [obj.lower()] *)
Definition py_lower (obj : json) : result string :=
  match obj with
  | JStr s => Ok (lower s)
  | _ => Raise "AttributeError: no attribute lower"
  end.

(** [{**a, **b}]: only dictionaries can be unpacked. *)
Definition dict_unpack (acc : pydict) (v : json) : result pydict :=
  match v with
  | JObj d => Ok (dict_update acc d)
  | _ => Raise "TypeError: object is not a mapping"
  end.

(** ** The working tree of a clone

    A path is the list of its components below the clone's root. *)

Inductive node : Type :=
| File (content : option string)   (* [None]: the file cannot be read as text *)
| Dir (entries : list (string * node)).

Definition path := list string.

Fixpoint entry (name : string) (es : list (string * node)) : option node :=
  match es with
  | [] => None
  | (n, x) :: es' => if string_eqb n name then Some x else entry name es'
  end.

Fixpoint lookup_path (fs : node) (p : path) : option node :=
  match p with
  | [] => Some fs
  | c :: p' =>
      match fs with
      | Dir es => match entry c es with
                  | Some x => lookup_path x p'
                  | None => None
                  end
      | File _ => None
      end
  end.

(** [p.exists()] *)
Definition exists_ (fs : node) (p : path) : bool :=
  match lookup_path fs p with Some _ => true | None => false end.

(** [p.is_file()] *)
Definition is_file (x : node) : bool :=
  match x with File _ => true | Dir _ => false end.

(** [with open(p) as f: f.read()] *)
Definition read_text (fs : node) (p : path) : result string :=
  match lookup_path fs p with
  | Some (File (Some content)) => Ok content
  | Some (File None) => Raise "UnicodeDecodeError"
  | Some (Dir _) => Raise "IsADirectoryError"
  | None => Raise "FileNotFoundError"
  end.

(** [p / name] *)
Definition child (p : path) (name : string) : path := (p ++ [name])%list.

(** [p.parent] and [p.name] *)
Definition parent (p : path) : path := removelast p.
Definition name_of (p : path) : string := List.last p EmptyString.

(** [root.rglob('*')]: every entry below [root], a directory's own entries
    before those of its sub-directories. *)
Fixpoint rglob (here : path) (x : node) : list (path * node) :=
  match x with
  | File _ => []
  | Dir es =>
      (map (fun e => (child here e.1, e.2)) es ++
       flat_map (fun e => rglob (child here e.1) e.2) es)%list
  end.

(** ** Data model of the scanner *)

(** The ecosystem tags ['npm'], ['yarn'], ['python'].  A package manager is
    an [option tag]: [None] is Python's [None], the spec's [unknown]. *)
Inductive tag : Type := npm | yarn | python.

#[export] Instance tag_eq_dec : EqDecision tag.
Proof. solve_decision. Defined.

(** [{'name': ..., 'version': ...}] *)
Record Dependency : Type := {
  name : string;
  version : json;
}.

(** [self.dependencies]: exactly the three keys, each an ordered list. *)
Record DependencySet : Type := {
  npm_deps : list Dependency;
  yarn_deps : list Dependency;
  python_deps : list Dependency;
}.

(** [ds[t].extend(new)] *)
Definition extend (t : tag) (new : list Dependency) (ds : DependencySet) : DependencySet :=
  match t with
  | npm => {| npm_deps := npm_deps ds ++ new; yarn_deps := yarn_deps ds;
              python_deps := python_deps ds |}
  | yarn => {| npm_deps := npm_deps ds; yarn_deps := yarn_deps ds ++ new;
               python_deps := python_deps ds |}
  | python => {| npm_deps := npm_deps ds; yarn_deps := yarn_deps ds;
                 python_deps := python_deps ds ++ new |}
  end%list.

(** The attributes of a [DependencyScanner] instance. *)
Record DependencyScanner : Type := {
  repo_url : string;
  repo_name : string;
  repo_path : option path;
  package_managers : gmap path (option tag);
  dependencies : DependencySet;
}.

(** [DependencyScanner.__init__] *)
Definition __init__ (url nm : string) : DependencyScanner :=
  {| repo_url := url; repo_name := nm; repo_path := None;
     package_managers := ∅;
     dependencies := {| npm_deps := []; yarn_deps := []; python_deps := [] |} |}.

Definition set_package_manager (directory : path) (pm : option tag)
    (self : DependencyScanner) : DependencyScanner :=
  {| repo_url := repo_url self; repo_name := repo_name self; repo_path := repo_path self;
     package_managers := <[directory := pm]> (package_managers self);
     dependencies := dependencies self |}.

Definition extend_dependencies (t : tag) (new : list Dependency)
    (self : DependencyScanner) : DependencyScanner :=
  {| repo_url := repo_url self; repo_name := repo_name self; repo_path := repo_path self;
     package_managers := package_managers self;
     dependencies := extend t new (dependencies self) |}.

(** An entry of [find_dependency_files]: [{'path', 'type', 'directory'}]. *)
Record FileInfo : Type := {
  fi_path : path;
  fi_type : option tag;
  fi_directory : path;
}.

(** An entry of [check_vulnerabilities]. *)
Record VulnerabilityMatch : Type := {
  vm_dependency : string;
  vm_type : tag;
  vm_version : json;
  vm_vulnerabilities : json;
}.

(** The dictionary returned by [scan_repository]. *)
Inductive ScanResult : Type :=
| Scanned (nm : string) (deps : DependencySet) (vulnerabilities : list VulnerabilityMatch)
| Errored (nm : string) (error : string).

Definition keys (r : ScanResult) : list string :=
  match r with
  | Scanned _ _ _ => ["repo_name"; "dependencies"; "vulnerabilities"]
  | Errored _ _ => ["repo_name"; "error"]
  end.

Definition result_name (r : ScanResult) : string :=
  match r with
  | Scanned nm _ _ => nm
  | Errored nm _ => nm
  end.

(** What [requests.get] hands back: the status and the outcome of [.json()]. *)
Record Response : Type := {
  status_code : Z;
  response_json : result json;
}.

(** An entry of the organisation's repository listing. *)
Record Repo : Type := {
  repo_listed_name : string;
  clone_url : string;
}.

(** [l[i]] *)
Definition py_index (l : list string) (i : nat) : result string :=
  match l !! i with
  | Some x => Ok x
  | None => Raise "IndexError: list index out of range"
  end.

(** ** The yarn.lock and requirements.txt line scanners (lines 121-134, 148-152) *)

(** The name taken from one header line, once its quote is stripped. *)
Definition yarn_package (package_line : string) : result string :=
  let parts := split at_sign package_line in
  p0 ← py_index parts 0;
  if startswith at_sign p0 then
    (* Scoped package *)
    p1 ← py_index parts 1;
    s0 ← py_index (split comma p1) 0;
    Ok (String at_sign s0)
  else Ok p0.

(** One iteration of [for line in content.split('\n')]. *)
Definition yarn_line (dependencies : list string) (line : string) : result (list string) :=
  let line := strip line in
  if startswith quote line then
    let package_line := strip_char quote line in
    if contains (String at_sign EmptyString) package_line then
      current_package ← yarn_package package_line;
      if nonempty current_package && negb (mem current_package dependencies)
      then Ok (dependencies ++ [current_package])%list
      else Ok dependencies
    else Ok dependencies
  else Ok dependencies.

Fixpoint yarn_lines (dependencies : list string) (lines : list string) : result (list string) :=
  match lines with
  | [] => Ok dependencies
  | line :: rest =>
      dependencies ← yarn_line dependencies line;
      yarn_lines dependencies rest
  end.

Definition unknown : json := JStr "unknown".

Definition parse_yarn_lock (content : string) : result (list Dependency) :=
  dependencies ← yarn_lines [] (split newline content);
  Ok (map (fun dep => {| name := dep; version := unknown |}) dependencies).

Definition keeps_requirement (line : string) : bool :=
  nonempty (strip line) && negb (startswith hash line).

Definition parse_requirements (content : string) : list Dependency :=
  let requirements :=
    map strip (filter (fun line => keeps_requirement line = true) (readlines content)) in
  map (fun req => {| name := req; version := unknown |}) requirements.

(** ** The scanner, over its external collaborators *)

Section Scanner.

(** [json.loads] (and [json.load]) on the text of a file. *)
Variable json_loads : string -> result json.
(** [git.Repo.clone_from]: the working tree it materialises, or its failure. *)
Variable clone_from : string -> result node.
(** [requests.get] on the advisories endpoint, keyed by the package name
    (the same name is taken to get the same answer during a scan). *)
Variable requests_get : string -> result Response.

(** Line 52: ['packageManager' in package_data and
    'yarn' in package_data['packageManager'].lower()]. *)
Definition declares_yarn (package_data : json) : result bool :=
  present ← py_in "packageManager" package_data;
  if present : bool then
    field ← py_getitem package_data "packageManager";
    lowered ← py_lower field;
    Ok (contains "yarn" lowered)
  else Ok false.

Definition detect_package_manager (fs : node) (directory : path) : option tag :=
  if negb (exists_ fs directory) then None
  else
    let yarn_lock := child directory "yarn.lock" in
    let package_lock := child directory "package-lock.json" in
    let package_json := child directory "package.json" in
    if exists_ fs yarn_lock then Some yarn
    else if exists_ fs package_lock then Some npm
    else if exists_ fs package_json then
      match (content ← read_text fs package_json;
             package_data ← json_loads content;
             declares_yarn package_data) with
      | Ok true => Some yarn
      | Ok false => Some npm
      | Raise _ => Some npm
      end
    else None.

(** Lines 82-105: what a [package.json] contributes. *)
Definition parse_package_json (content : string) : result (list Dependency) :=
  if negb (nonempty (strip content)) then Ok []
  else
    package_data ← json_loads content;
    match package_data with
    | JObj d =>
        let get key := default (JObj []) (dict_get key d) in
        acc ← dict_unpack [] (get "dependencies");
        dependencies ← dict_unpack acc (get "devDependencies");
        Ok (map (fun item => {| name := item.1; version := item.2 |}) dependencies)
    | _ => Ok []
    end.

Definition parse_dependencies (fs : node) (file_info : FileInfo)
    (self : DependencyScanner) : DependencyScanner :=
  let file_path := fi_path file_info in
  let file_type := fi_type file_info in
  let directory := parent file_path in
  match file_type with
  | Some npm | Some yarn =>
      (* Detect package manager for this directory if not already detected *)
      let self :=
        match package_managers self !! directory with
        | Some _ => self
        | None => set_package_manager directory (detect_package_manager fs directory) self
        end in
      match package_managers self !! directory with
      | Some (Some package_manager) =>
          if string_eqb (name_of file_path) "package.json" then
            match (content ← read_text fs file_path; parse_package_json content) with
            | Ok new => extend_dependencies package_manager new self
            | Raise _ => self
            end
          else if string_eqb (name_of file_path) "yarn.lock" then
            if bool_decide (package_manager = yarn) then
              match (content ← read_text fs file_path; parse_yarn_lock content) with
              | Ok new => extend_dependencies yarn new self
              | Raise _ => self
              end
            else self
          else self
      | _ => self
      end
  | Some python =>
      match read_text fs file_path with
      | Ok content => extend_dependencies python (parse_requirements content) self
      | Raise _ => self
      end
  | None => self
  end.

(** The inner loop of [check_vulnerabilities], for one ecosystem list. *)
Fixpoint check_deps (dep_type : tag) (deps : list Dependency)
    (vulnerabilities : list VulnerabilityMatch) : result (list VulnerabilityMatch) :=
  match deps with
  | [] => Ok vulnerabilities
  | dep :: rest =>
      response ← requests_get (name dep);
      if (status_code response =? 200)%Z then
        vulns ← response_json response;
        if py_truthy vulns then
          check_deps dep_type rest
            (vulnerabilities ++ [{| vm_dependency := name dep; vm_type := dep_type;
                                    vm_version := version dep;
                                    vm_vulnerabilities := vulns |}])%list
        else check_deps dep_type rest vulnerabilities
      else check_deps dep_type rest vulnerabilities
  end.

Definition check_vulnerabilities (self : DependencyScanner) : result (list VulnerabilityMatch) :=
  let ds := dependencies self in
  v ← check_deps npm (npm_deps ds) [];
  v ← check_deps yarn (yarn_deps ds) v;
  check_deps python (python_deps ds) v.

Definition clone_repository (self : DependencyScanner) : result (DependencyScanner * node) :=
  fs ← clone_from (repo_url self);
  Ok ({| repo_url := repo_url self; repo_name := repo_name self; repo_path := Some [];
         package_managers := package_managers self;
         dependencies := dependencies self |}, fs).

Definition _get_file_type (filename : string) : option tag :=
  if string_eqb filename "package.json" then Some npm
  else if string_eqb filename "yarn.lock" then Some yarn
  else if string_eqb filename "requirements.txt" then Some python
  else None.

Definition is_manifest (filename : string) : bool :=
  mem filename ["package.json"; "yarn.lock"; "requirements.txt"].

Definition find_dependency_files (fs : node) (self : DependencyScanner) : result (list FileInfo) :=
  match repo_path self with
  | None => Raise "AttributeError: NoneType has no attribute rglob"
  | Some root =>
      Ok (omap (fun e : path * node =>
                  if is_file e.2 && is_manifest (name_of e.1)
                  then Some {| fi_path := e.1; fi_type := _get_file_type (name_of e.1);
                               fi_directory := parent e.1 |}
                  else None)
               (match lookup_path fs root with
                | Some x => rglob root x
                | None => []
                end))
  end.

(** The loop of lines 271-272. *)
Definition parse_all (fs : node) (dependency_files : list FileInfo)
    (self : DependencyScanner) : DependencyScanner :=
  fold_left (fun self file_info => parse_dependencies fs file_info self) dependency_files self.

(** The [try] body of [scan_repository] (lines 267-280). *)
Definition scan_stages (url nm : string) : result ScanResult :=
  let scanner := __init__ url nm in
  '(scanner, fs) ← clone_repository scanner;
  dependency_files ← find_dependency_files fs scanner;
  let scanner := parse_all fs dependency_files scanner in
  vulnerabilities ← check_vulnerabilities scanner;
  Ok (Scanned nm (dependencies scanner) vulnerabilities).

(** [scan_repository]: the [try] sits inside [with
    tempfile.TemporaryDirectory()], whose creation and removal are taken to
    succeed. *)
Definition scan_repository (url nm : string) : result ScanResult :=
  try_except (scan_stages url nm) (fun e => Ok (Errored nm e)).

(** The loop of [main] (lines 312-320), from the [results] gathered so far. *)
Fixpoint main_loop (EXCLUDED_REPOS : list string) (repos : list Repo)
    (results : list ScanResult) : result (list ScanResult) :=
  match repos with
  | [] => Ok results
  | repo :: rest =>
      if mem (repo_listed_name repo) EXCLUDED_REPOS then main_loop EXCLUDED_REPOS rest results
      else
        r ← scan_repository (clone_url repo) (repo_listed_name repo);
        main_loop EXCLUDED_REPOS rest (results ++ [r])%list
  end.

Definition main (EXCLUDED_REPOS : list string) (repos : list Repo) : result (list ScanResult) :=
  main_loop EXCLUDED_REPOS repos [].

End Scanner.

(** ** A reader for the JSON of the examples

    The theorems below hold for any [json_loads].  To run the scanner on
    concrete manifests the examples use this reader, which covers objects,
    arrays, strings with the one-character escapes, integers and the three
    literals, and builds objects the way [dict] does (a repeated key keeps
    its first position and its last value). *)

Module Reader.

Definition json_space (c : ascii) : bool :=
  let n := nat_of_ascii c in ((n =? 32) || (n =? 9) || (n =? 10) || (n =? 13))%nat.

Definition skip (s : string) : string := lstrip_by json_space s.

Definition is_digit (c : ascii) : bool :=
  let n := nat_of_ascii c in ((48 <=? n) && (n <=? 57))%nat.

Fixpoint read_digits (acc : Z) (s : string) : Z * string :=
  match s with
  | String c s' =>
      if is_digit c then read_digits (acc * 10 + (Z.of_nat (nat_of_ascii c) - 48))%Z s'
      else (acc, s)
  | EmptyString => (acc, s)
  end.

Definition unescape (c : ascii) : option ascii :=
  if ascii_eqb c quote then Some quote
  else if ascii_eqb c "\"%char then Some "\"%char
  else if ascii_eqb c "/"%char then Some "/"%char
  else if ascii_eqb c "n"%char then Some newline
  else if ascii_eqb c "t"%char then Some "009"%char
  else if ascii_eqb c "r"%char then Some "013"%char
  else if ascii_eqb c "b"%char then Some "008"%char
  else if ascii_eqb c "f"%char then Some "012"%char
  else None.

Definition push (c : ascii) (r : option (string * string)) : option (string * string) :=
  match r with
  | Some (str, rest) => Some (String c str, rest)
  | None => None
  end.

(** The characters of a string literal, read after its opening quote. *)
Fixpoint read_string (s : string) : option (string * string) :=
  match s with
  | EmptyString => None
  | String c s' =>
      if ascii_eqb c quote then Some (EmptyString, s')
      else if ascii_eqb c "\"%char then
        match s' with
        | String e s'' =>
            match unescape e with
            | Some x => push x (read_string s'')
            | None => None
            end
        | EmptyString => None
        end
      else push c (read_string s')
  end.

Definition read_literal (word : string) (v : json) (s : string) : option (json * string) :=
  if is_prefix word s then Some (v, String.substring (String.length word) (String.length s) s)
  else None.

Definition leading_zero (digits : string) : bool :=
  match digits with
  | String "0"%char (String d _) => is_digit d
  | _ => false
  end.

(** Integers only: a fraction or an exponent is refused. *)
Definition read_number (s : string) : option (json * string) :=
  let '(sign, digits) :=
    match s with
    | String "-"%char s' => ((-1)%Z, s')
    | _ => (1%Z, s)
    end in
  match digits with
  | String d _ =>
      if is_digit d then
        let '(n, rest) := read_digits 0 digits in
        if leading_zero digits || is_prefix "." rest || is_prefix "e" rest || is_prefix "E" rest
        then None
        else Some (JInt (sign * n), rest)
      else None
  | EmptyString => None
  end.

Fixpoint read_value (fuel : nat) (s : string) : option (json * string) :=
  match fuel with
  | O => None
  | S fuel =>
      match skip s with
      | EmptyString => None
      | String c rest =>
          if ascii_eqb c "{"%char then
            match skip rest with
            | String "}"%char rest' => Some (JObj [], rest')
            | members => read_members fuel [] members
            end
          else if ascii_eqb c "["%char then
            match skip rest with
            | String "]"%char rest' => Some (JArr [], rest')
            | elements => read_elements fuel [] elements
            end
          else if ascii_eqb c quote then
            '(str, rest') ← read_string rest; Some (JStr str, rest')
          else if ascii_eqb c "t"%char then read_literal "true" (JBool true) (String c rest)
          else if ascii_eqb c "f"%char then read_literal "false" (JBool false) (String c rest)
          else if ascii_eqb c "n"%char then read_literal "null" JNull (String c rest)
          else read_number (String c rest)
      end
  end
with read_members (fuel : nat) (acc : pydict) (s : string) : option (json * string) :=
  match fuel with
  | O => None
  | S fuel =>
      match s with
      | String c rest =>
          if ascii_eqb c quote then
            '(key, rest) ← read_string rest;
            match skip rest with
            | String ":"%char rest =>
                '(v, rest) ← read_value fuel rest;
                match skip rest with
                | String ","%char rest => read_members fuel (dict_set key v acc) (skip rest)
                | String "}"%char rest => Some (JObj (dict_set key v acc), rest)
                | _ => None
                end
            | _ => None
            end
          else None
      | EmptyString => None
      end
  end
with read_elements (fuel : nat) (acc : list json) (s : string) : option (json * string) :=
  match fuel with
  | O => None
  | S fuel =>
      '(v, rest) ← read_value fuel s;
      match skip rest with
      | String ","%char rest => read_elements fuel (acc ++ [v])%list rest
      | String "]"%char rest => Some (JArr (acc ++ [v])%list, rest)
      | _ => None
      end
  end.

Definition json_loads (s : string) : result json :=
  match read_value (S (String.length s)) s with
  | Some (v, rest) =>
      if nonempty (skip rest) then Raise "JSONDecodeError: Extra data" else Ok v
  | None => Raise "JSONDecodeError"
  end.

End Reader.

(** * Properties *)

(** ** Strings and dictionaries *)

Lemma ascii_eqb_true a b : ascii_eqb a b = true ↔ a = b.
Proof. unfold ascii_eqb. apply bool_decide_eq_true. Qed.

Lemma string_eqb_true a b : string_eqb a b = true ↔ a = b.
Proof. unfold string_eqb. apply bool_decide_eq_true. Qed.

Lemma string_eqb_false a b : string_eqb a b = false ↔ a ≠ b.
Proof. unfold string_eqb. apply bool_decide_eq_false. Qed.

Lemma mem_true x l : mem x l = true ↔ x ∈ l.
Proof. unfold mem. apply bool_decide_eq_true. Qed.

Lemma mem_false x l : mem x l = false ↔ x ∉ l.
Proof. unfold mem. apply bool_decide_eq_false. Qed.

(** The first piece of a split never begins with the separator: the piece
    stops before the first separator of the line. *)
Lemma split_head sep s :
  ∃ p ps, split sep s = p :: ps ∧ startswith sep p = false.
Proof.
  induction s as [|c s (p & ps & Hs & Hp)]; simpl.
  - by exists EmptyString, [].
  - destruct (ascii_eqb c sep) eqn:Hc.
    + by exists EmptyString, (split sep s).
    + rewrite Hs. exists (String c p), ps. by simpl.
Qed.

Lemma lookup_path_app fs p q :
  lookup_path fs (p ++ q)%list = lookup_path fs p ≫= λ x, lookup_path x q.
Proof.
  revert fs. induction p as [|c p IH]; intros fs; simpl; [done|].
  destruct fs as [|es]; [done|]. destruct (entry c es); [apply IH | done].
Qed.

(** A path with an existing entry below it exists. *)
Lemma exists_child fs directory nm :
  exists_ fs (child directory nm) = true → exists_ fs directory = true.
Proof.
  unfold exists_, child. rewrite lookup_path_app.
  by destruct (lookup_path fs directory).
Qed.

(** ** Dictionaries *)

Ltac case_eqb :=
  repeat match goal with
    | |- context [string_eqb ?a ?b] =>
        let E := fresh "E" in
        destruct (string_eqb a b) eqn:E;
        [apply string_eqb_true in E | apply string_eqb_false in E]; csimpl
    end.

Lemma dict_get_set k k' v d :
  dict_get k (dict_set k' v d) = if decide (k = k') then Some v else dict_get k d.
Proof.
  induction d as [|[k1 v1] d IH]; simpl; case_eqb; rewrite ?IH;
    repeat case_decide; simplify_eq; done.
Qed.

Lemma dict_set_keys k v d :
  (dict_set k v d).*1 = if decide (k ∈ d.*1) then d.*1 else (d.*1 ++ [k])%list.
Proof.
  induction d as [|[k1 v1] d IH]; csimpl; [done|].
  case_eqb; simplify_eq; csimpl.
  - rewrite decide_True; [done|left].
  - rewrite IH. destruct (decide (k ∈ d.*1)) as [Hin|Hin].
    + rewrite decide_True; [done|by right].
    + rewrite decide_False; [done|]. rewrite elem_of_cons. naive_solver.
Qed.

Lemma NoDup_dict_set k v d : NoDup d.*1 → NoDup (dict_set k v d).*1.
Proof.
  intros Hd. rewrite dict_set_keys. case_decide; [done|].
  apply NoDup_app. repeat split; [done| |apply NoDup_singleton].
  intros x Hx ->%list_elem_of_singleton. done.
Qed.

Lemma NoDup_dict_update d other : NoDup d.*1 → NoDup (dict_update d other).*1.
Proof.
  revert d. induction other as [|[k v] other IH]; intros d Hd; simpl; [done|].
  apply IH. by apply NoDup_dict_set.
Qed.

Lemma dict_get_None k d : dict_get k d = None ↔ k ∉ d.*1.
Proof.
  induction d as [|[k1 v1] d IH]; simpl.
  - split; [intros _; apply not_elem_of_nil|done].
  - rewrite not_elem_of_cons. case_eqb; simplify_eq; naive_solver.
Qed.

(** In a dictionary with distinct keys, [dict_get] reads its entries. *)
Lemma dict_get_Some k v d : NoDup d.*1 → dict_get k d = Some v ↔ (k, v) ∈ d.
Proof.
  induction d as [|[k1 v1] d IH]; simpl.
  - intros _. split; [done|by intros ?%elem_of_nil].
  - intros [Hk1 Hd]%NoDup_cons. rewrite elem_of_cons.
    case_eqb; simplify_eq.
    + split; [naive_solver|]. intros [?|Hin]; [naive_solver|].
      exfalso. apply Hk1. apply list_elem_of_fmap. by exists (k, v).
    + rewrite IH by done. naive_solver.
Qed.

(** [d.update(other)]: the keys of [other] take its values, the rest keep theirs. *)
Lemma dict_get_update k d other :
  NoDup other.*1 →
  dict_get k (dict_update d other) =
    match dict_get k other with
    | Some v => Some v
    | None => dict_get k d
    end.
Proof.
  revert d. induction other as [|[k1 v1] other IH]; intros d Hother; [done|].
  rewrite fmap_cons in Hother. apply NoDup_cons in Hother as [Hk1 Hother].
  change (dict_update d ((k1, v1) :: other)) with (dict_update (dict_set k1 v1 d) other).
  rewrite IH, dict_get_set by done. cbn [dict_get]. case_eqb; simplify_eq.
  - apply dict_get_None in Hk1. cbn in Hk1. rewrite Hk1. by rewrite decide_True.
  - by rewrite decide_False by done.
Qed.

(** ** The working tree *)

(** A directory holds each name once. *)
Inductive wf_tree : node → Prop :=
| wf_File content : wf_tree (File content)
| wf_Dir es : NoDup es.*1 → Forall (λ e, wf_tree e.2) es → wf_tree (Dir es).

Lemma entry_elem_of n x es : NoDup es.*1 → (n, x) ∈ es → entry n es = Some x.
Proof.
  induction es as [|[n' x'] es IH]; csimpl; [by intros _ ?%elem_of_nil|].
  intros [Hn' Hes]%NoDup_cons [[= -> ->]|Hin]%elem_of_cons; case_eqb; try done.
  - simplify_eq. exfalso. apply Hn'. apply list_elem_of_fmap. by exists (n, x).
  - by apply IH.
Qed.

Lemma node_induction (P : node → Prop) :
  (∀ content, P (File content)) →
  (∀ es, Forall (λ e, P e.2) es → P (Dir es)) →
  ∀ x, P x.
Proof.
  intros Hfile Hdir. fix IH 1. intros [content|es]; [apply Hfile|].
  apply Hdir. induction es as [|e es IHes]; constructor; [apply IH|apply IHes].
Qed.

(** Every entry listed by [rglob] is found again by following its path. *)
Lemma rglob_lookup x :
  wf_tree x → ∀ here p y, (p, y) ∈ rglob here x →
  ∃ suffix, suffix ≠ [] ∧ p = (here ++ suffix)%list ∧ lookup_path x suffix = Some y.
Proof.
  induction x as [content|es IH] using node_induction; intros Hwf here p y; simpl.
  - by intros ?%elem_of_nil.
  - inversion_clear Hwf as [|? Hnames Hchildren].
    rewrite elem_of_app, list_elem_of_fmap. intros [([n z] & [= -> ->] & Hin)|Hin].
    + exists [n]. split; [done|]. split; [done|]. simpl.
      by rewrite (entry_elem_of n z es Hnames Hin).
    + apply list_elem_of_In, in_flat_map in Hin as ([n z] & Hin%list_elem_of_In & Hsub).
      apply list_elem_of_In in Hsub. simpl in Hsub.
      rewrite Forall_forall in IH, Hchildren.
      destruct (IH _ Hin (Hchildren _ Hin) _ _ _ Hsub) as (suffix & _ & -> & Hlookup).
      exists (n :: suffix). split; [done|]. split.
      * unfold child. by rewrite <- (assoc_L _ here).
      * simpl. by rewrite (entry_elem_of n z es Hnames Hin).
Qed.

Lemma parent_child p : p ≠ [] → child (parent p) (name_of p) = p.
Proof. intros Hp. unfold child, parent, name_of. symmetry. by apply app_removelast_last. Qed.

(** ** The yarn.lock parser *)

(** The names a single line proposes: what the loop body appends when
    nothing has been collected yet. *)
Definition header_names (line : string) : list string :=
  match yarn_line [] line with
  | Ok names => names
  | Raise _ => []
  end.

(** A sequence of names with every repeat of an earlier name removed. *)
Fixpoint first_occurrences (l : list string) : list string :=
  match l with
  | [] => []
  | x :: xs => x :: filter (λ y, y ≠ x) (first_occurrences xs)
  end.

Definition with_quotes (s : string) : string :=
  String quote s +:+ String quote ":".

Definition lines_of (ls : list string) : string :=
  String.concat (String newline EmptyString) ls.

Definition lodash_lock : string :=
  lines_of [with_quotes "lodash@^4.17.0"; "  version 4.17.21"; "";
            with_quotes "lodash@^4.16.0"; "  version 4.16.6"].

Definition scoped_header : string :=
  with_quotes "@babel/core@^7.0.0, @babel/core@^7.1.0".

(** The name extraction never raises, and always takes the [else] branch:
    the text before the first [@] cannot itself begin with [@]. *)
Lemma yarn_package_first_piece package_line :
  ∃ p ps, split at_sign package_line = p :: ps ∧ yarn_package package_line = Ok p.
Proof.
  destruct (split_head at_sign package_line) as (p & ps & Hs & Hp).
  exists p, ps. split; [done|].
  unfold yarn_package. rewrite Hs. simpl. by rewrite Hp.
Qed.

Lemma yarn_line_cases dependencies line :
  (yarn_line dependencies line = Ok dependencies ∧
   (header_names line = [] ∨ ∃ n, header_names line = [n] ∧ n ∈ dependencies)) ∨
  (∃ n, n ≠ EmptyString ∧ (n ∉ dependencies) ∧ header_names line = [n] ∧
        yarn_line dependencies line = Ok (dependencies ++ [n])%list).
Proof.
  unfold header_names, yarn_line.
  destruct (startswith quote (strip line)); [|by left; split; [|left]].
  destruct (contains _ _); [|by left; split; [|left]].
  destruct (yarn_package_first_piece (strip_char quote (strip line))) as (p & ps & _ & ->).
  simpl. destruct p as [|c p]; simpl; [by left; split; [|left]|].
  destruct (mem (String c p) dependencies) eqn:Hmem; simpl.
  - left. split; [done|]. right. exists (String c p). split; [done|]. by apply mem_true.
  - right. exists (String c p). repeat split; try done. by apply mem_false.
Qed.

(** A scoped header, whose text after the quote begins with [@], is dropped. *)
Lemma scoped_line_dropped dependencies line :
  startswith at_sign (strip_char quote (strip line)) = true →
  yarn_line dependencies line = Ok dependencies.
Proof.
  intros Hscoped. unfold yarn_line.
  destruct (startswith quote (strip line)); [|done].
  destruct (contains _ _); [|done].
  destruct (strip_char quote (strip line)) as [|c rest]; [done|].
  simpl in Hscoped. unfold yarn_package. simpl. by rewrite Hscoped.
Qed.

Lemma filter_all (P : string → Prop) `{∀ x, Decision (P x)} (l : list string) :
  (∀ x, x ∈ l → P x) → filter P l = l.
Proof.
  induction l as [|x l IH]; intros Hall; [done|].
  rewrite filter_cons_True by (apply Hall; left).
  f_equal. apply IH. intros y Hy. apply Hall. by right.
Qed.

Lemma filter_first_occurrences (P : string → Prop) `{∀ x, Decision (P x)} l :
  filter P (first_occurrences l) = first_occurrences (filter P l).
Proof.
  induction l as [|x l IH]; [done|]. simpl.
  rewrite !filter_cons. destruct (decide (P x)) as [Hx|Hx]; simpl.
  - rewrite <- IH. f_equal. rewrite !list_filter_filter.
    apply list_filter_iff. naive_solver.
  - rewrite <- IH, list_filter_filter. apply list_filter_iff.
    intros y. split; [naive_solver|]. intros Hy. split; [done|]. by intros ->.
Qed.

Lemma NoDup_first_occurrences l : NoDup (first_occurrences l).
Proof.
  induction l as [|x l IH]; simpl; constructor.
  - rewrite list_elem_of_filter. naive_solver.
  - by apply NoDup_filter.
Qed.

Lemma elem_of_first_occurrences x l : x ∈ first_occurrences l ↔ x ∈ l.
Proof.
  induction l as [|y l IH]; simpl; [done|].
  rewrite !elem_of_cons, list_elem_of_filter, IH.
  destruct (decide (x = y)); naive_solver.
Qed.

(** The loop over the lines never raises; it extends what was collected
    with the first occurrences of the names not collected before. *)
Lemma yarn_lines_first_occurrences lines dependencies :
  yarn_lines dependencies lines =
    Ok (dependencies ++
        first_occurrences (filter (λ n, n ∉ dependencies) (lines ≫= header_names)))%list.
Proof.
  revert dependencies. induction lines as [|line lines IH]; intros dependencies; simpl.
  - by rewrite app_nil_r.
  - destruct (yarn_line_cases dependencies line)
      as [[-> [Hn|(n & Hn & Hin)]]|(n & _ & Hnot & Hn & ->)];
      simpl; rewrite IH, Hn; simpl; [done| |].
    + by rewrite filter_cons_False by naive_solver.
    + rewrite filter_cons_True by done. simpl.
      rewrite <- (assoc_L _ _ [n]). simpl. do 3 f_equal.
      rewrite filter_first_occurrences, list_filter_filter.
      f_equal. apply list_filter_iff. intros y.
      rewrite elem_of_app, list_elem_of_singleton. naive_solver.
Qed.

Lemma header_names_nonempty line n : n ∈ header_names line → n ≠ EmptyString.
Proof.
  destruct (yarn_line_cases [] line) as [[_ [->|(m & _ & Hm)]]|(m & Hm & _ & -> & _)].
  - by intros ?%elem_of_nil.
  - by apply elem_of_nil in Hm.
  - by intros ->%list_elem_of_singleton.
Qed.

Lemma parse_yarn_lock_names content :
  ∃ new, parse_yarn_lock content = Ok new ∧
    map name new = first_occurrences (split newline content ≫= header_names) ∧
    Forall (λ dep, version dep = unknown) new.
Proof.
  unfold parse_yarn_lock. rewrite yarn_lines_first_occurrences. simpl.
  eexists; split; [done|]. split.
  - rewrite map_map. simpl. rewrite map_id. f_equal.
    apply filter_all. intros n _. apply not_elem_of_nil.
  - apply Forall_forall. by intros dep (n & -> & _)%list_elem_of_fmap.
Qed.

(** C5. One pass over a yarn.lock keeps each name once, at its first
    occurrence, and drops later repeats; every emitted Dependency has
    version "unknown"; two [lodash] headers yield exactly one [lodash]. *)
Theorem yarn_lock_first_occurrence_kept :
  (∀ content, ∃ new,
      parse_yarn_lock content = Ok new ∧
      map name new = first_occurrences (split newline content ≫= header_names) ∧
      NoDup (map name new) ∧
      Forall (λ dep, version dep = unknown) new) ∧
  parse_yarn_lock lodash_lock = Ok [{| name := "lodash"; version := unknown |}].
Proof.
  split; [|by vm_compute].
  intros content. destruct (parse_yarn_lock_names content) as (new & Hnew & Hnames & Hver).
  exists new. repeat split; try done.
  rewrite Hnames. apply NoDup_first_occurrences.
Qed.

(** C10. Every Dependency the yarn.lock parser emits has a non-empty name,
    and a header line whose extracted name is the empty string leaves the
    collected names as they were. *)
Theorem yarn_lock_names_nonempty :
  (∀ content, ∃ new,
      parse_yarn_lock content = Ok new ∧
      Forall (λ dep, name dep ≠ EmptyString) new) ∧
  (∀ dependencies line,
      yarn_package (strip_char quote (strip line)) = Ok EmptyString →
      yarn_line dependencies line = Ok dependencies).
Proof.
  split.
  - intros content. destruct (parse_yarn_lock_names content) as (new & Hnew & Hnames & _).
    exists new. split; [done|]. apply Forall_forall. intros dep Hdep.
    assert (name dep ∈ map name new) as Hin by (by apply list_elem_of_fmap_2).
    rewrite Hnames, elem_of_first_occurrences in Hin.
    apply list_elem_of_bind in Hin as (line & Hin & _).
    by eapply header_names_nonempty.
  - intros dependencies line Hempty. unfold yarn_line.
    destruct (startswith quote (strip line)); [|done].
    destruct (contains _ _); [|done].
    by rewrite Hempty.
Qed.

(** C2. The scoped header of the specification's example contributes no
    Dependency: the scoped branch of the name extraction is never taken and
    the name found is empty. *)
Theorem scoped_header_yields_nothing :
  parse_yarn_lock scoped_header = Ok [].
Proof. by vm_compute. Qed.

(** ** The requirements.txt parser *)

Definition requirements_example : string :=
  lines_of ["requests==2.0"; ""; "# comment"; "flask"].

Definition requirements_indented_comment : string :=
  lines_of ["  # comment"; "flask"].

Lemma requirements_example_parsed :
  parse_requirements requirements_example =
    [{| name := "requests==2.0"; version := unknown |};
     {| name := "flask"; version := unknown |}].
Proof. by vm_compute. Qed.

(** C3. A comment line that starts with white space is not dropped: the
    test for [#] looks at the line as read, not at its trimmed form, and the
    trimmed comment is recorded as a Dependency. *)
Theorem indented_comment_recorded :
  parse_requirements requirements_indented_comment =
    [{| name := "# comment"; version := unknown |};
     {| name := "flask"; version := unknown |}].
Proof. by vm_compute. Qed.

Section Properties.

Variable json_loads : string -> result json.
Variable clone_from : string -> result node.
Variable requests_get : string -> result Response.

(** ** The Manager Resolver *)

(** The specification's step 3: the manifest parses to an object whose
    [packageManager] field is a string that mentions yarn in any case. *)
Definition mentions_yarn (fs : node) (directory : path) : bool :=
  match read_text fs (child directory "package.json") with
  | Ok content =>
      match json_loads content with
      | Ok (JObj d) =>
          match dict_get "packageManager" d with
          | Some (JStr s) => contains "yarn" (lower s)
          | _ => false
          end
      | _ => false
      end
  | Raise _ => false
  end.

(** The specification's decision order, first match winning. *)
Definition resolve (fs : node) (directory : path) : option tag :=
  if exists_ fs (child directory "yarn.lock") then Some yarn
  else if exists_ fs (child directory "package-lock.json") then Some npm
  else if exists_ fs (child directory "package.json") then
    if mentions_yarn fs directory then Some yarn else Some npm
  else None.

Lemma declares_yarn_object d :
  declares_yarn (JObj d) =
    match dict_get "packageManager" d with
    | Some (JStr s) => Ok (contains "yarn" (lower s))
    | Some _ => Raise "AttributeError: no attribute lower"
    | None => Ok false
    end.
Proof.
  unfold declares_yarn; simpl.
  destruct (dict_get "packageManager" d) as [[]|]; reflexivity.
Qed.

Lemma declares_yarn_other v :
  (∀ d, v ≠ JObj d) → declares_yarn v ≠ Ok true.
Proof.
  intros Hv. destruct v; try done; unfold declares_yarn; simpl.
  - by destruct (contains _ _).
  - by destruct (existsb _ _).
  - by destruct (Hv kvs).
Qed.

(** C1. In every directory the resolver decides by fixed precedence, first
    match winning: [yarn.lock] gives yarn; otherwise [package-lock.json]
    gives npm; otherwise [package.json] gives yarn when its [packageManager]
    field contains "yarn" in any case and npm otherwise; otherwise the
    result is unknown ([None]). *)
Theorem detect_package_manager_precedence (fs : node) (directory : path) :
  detect_package_manager json_loads fs directory = resolve fs directory.
Proof.
  unfold detect_package_manager, resolve, mentions_yarn.
  destruct (exists_ fs directory) eqn:Hdir; simpl.
  - destruct (exists_ fs (child directory "yarn.lock")); [done|].
    destruct (exists_ fs (child directory "package-lock.json")); [done|].
    destruct (exists_ fs (child directory "package.json")); [|done].
    destruct (read_text fs (child directory "package.json")) as [content|]; simpl; [|done].
    destruct (json_loads content) as [package_data|]; simpl; [|done].
    destruct package_data;
      try (by destruct (declares_yarn _) as [[]|] eqn:E;
              [exfalso; revert E; by apply declares_yarn_other | |]).
    rewrite declares_yarn_object.
    by destruct (dict_get "packageManager" kvs) as [[]|].
  - destruct (exists_ fs (child directory "yarn.lock")) eqn:E1;
      [apply exists_child in E1; congruence|].
    destruct (exists_ fs (child directory "package-lock.json")) eqn:E2;
      [apply exists_child in E2; congruence|].
    destruct (exists_ fs (child directory "package.json")) eqn:E3;
      [apply exists_child in E3; congruence|].
    done.
Qed.

(** ** The package.json parser *)

(** The object found under [key], an absent key counting as [{}]. *)
Definition field (key : string) (d o : pydict) : Prop :=
  dict_get key d = None ∧ o = [] ∨ dict_get key d = Some (JObj o).

(** The key-wise union of two dictionaries, the second one winning. *)
Definition union_lookup (deps dev : pydict) (n : string) : option json :=
  match dict_get n dev with
  | Some v => Some v
  | None => dict_get n deps
  end.

Lemma field_default key d o :
  field key d o → default (JObj []) (dict_get key d) = JObj o.
Proof. by intros [[-> ->]| ->]. Qed.

(** C4. A package.json whose top-level value is an object contributes the
    key-wise union of its [dependencies] and [devDependencies], an entry of
    the latter overriding the version of the same name, each version being
    the specifier as found; blank content and a top-level value that is not
    an object contribute nothing. *)
Theorem package_json_union (content : string) :
  (nonempty (strip content) = false → parse_package_json json_loads content = Ok []) ∧
  (∀ v, json_loads content = Ok v → (∀ d, v ≠ JObj d) →
        parse_package_json json_loads content = Ok []) ∧
  (∀ d deps dev,
      nonempty (strip content) = true →
      json_loads content = Ok (JObj d) →
      field "dependencies" d deps → field "devDependencies" d dev →
      NoDup deps.*1 → NoDup dev.*1 →
      ∃ new, parse_package_json json_loads content = Ok new ∧
             NoDup (map name new) ∧
             ∀ n v, {| name := n; version := v |} ∈ new ↔ union_lookup deps dev n = Some v).
Proof.
  unfold parse_package_json. repeat split.
  - by intros ->.
  - intros v Hv Hobj. destruct (nonempty (strip content)); simpl; [|done].
    rewrite Hv. simpl. destruct v; try done. by destruct (Hobj kvs).
  - intros d deps dev -> Hd Hdeps Hdev Hnodup_deps Hnodup_dev. simpl.
    rewrite Hd. simpl.
    rewrite (field_default _ _ _ Hdeps), (field_default _ _ _ Hdev). simpl.
    set (merged := dict_update (dict_update [] deps) dev).
    assert (NoDup merged.*1) as Hmerged
      by (apply NoDup_dict_update, NoDup_dict_update; simpl; constructor).
    eexists; split; [done|]. split.
    + by rewrite map_map.
    + intros n v.
      assert (union_lookup deps dev n = dict_get n merged) as ->.
      { unfold union_lookup, merged. rewrite !dict_get_update by done. simpl.
        by destruct (dict_get n dev), (dict_get n deps). }
      rewrite (dict_get_Some _ _ _ Hmerged), list_elem_of_fmap.
      split.
      * intros ([n' v'] & [= -> ->] & Hin). done.
      * intros Hin. by exists (n, v).
Qed.

(** ** The per-directory cache *)

(** Files of kind ['npm'] or ['yarn'] are the ones that go through the resolver. *)
Definition resolved_kind (file_info : FileInfo) : bool :=
  match fi_type file_info with
  | Some npm | Some yarn => true
  | _ => false
  end.

(** The cache after one manifest: a directory met for the first time gets
    the resolver's answer, everything else is left as it was. *)
Lemma parse_dependencies_cache fs file_info self :
  package_managers (parse_dependencies json_loads fs file_info self) =
    if resolved_kind file_info then
      match package_managers self !! parent (fi_path file_info) with
      | Some _ => package_managers self
      | None => <[parent (fi_path file_info) :=
                    detect_package_manager json_loads fs (parent (fi_path file_info))]>
                  (package_managers self)
      end
    else package_managers self.
Proof.
  unfold parse_dependencies, resolved_kind.
  destruct (fi_type file_info) as [[]|]; simpl; try done;
    repeat (case_match; simpl; try done).
Qed.

Lemma parse_dependencies_stable fs file_info self d v :
  package_managers self !! d = Some v →
  package_managers (parse_dependencies json_loads fs file_info self) !! d = Some v.
Proof.
  intros Hd. rewrite parse_dependencies_cache.
  destruct (resolved_kind file_info); [|done].
  destruct (package_managers self !! parent (fi_path file_info)) eqn:Hdir; [done|].
  rewrite lookup_insert_ne; [done|]. intros <-. congruence.
Qed.

Lemma parse_all_stable fs files self d v :
  package_managers self !! d = Some v →
  package_managers (parse_all json_loads fs files self) !! d = Some v.
Proof.
  revert self. induction files as [|file_info files IH]; intros self Hd; [done|].
  apply IH. by apply parse_dependencies_stable.
Qed.




(** ** Directories whose package manager is unknown *)

(** The invariant as the specification words it: once a directory is cached
    as unknown, no manifest of that directory records anything. *)
Definition records_nothing_when_unknown (fs : node) (file_info : FileInfo)
    (self : DependencyScanner) : Prop :=
  package_managers self !! parent (fi_path file_info) = Some None →
  dependencies (parse_dependencies json_loads fs file_info self) = dependencies self.

Lemma parse_dependencies_unknown fs file_info self :
  package_managers self !! parent (fi_path file_info) = Some None →
  fi_type file_info ≠ Some python →
  parse_dependencies json_loads fs file_info self = self.
Proof.
  intros Hd Hkind. unfold parse_dependencies. rewrite Hd.
  destruct (fi_type file_info) as [[]|]; simpl; try done; by rewrite Hd.
Qed.

Lemma parse_dependencies_python_only fs file_info self :
  fi_type file_info = Some python →
  npm_deps (dependencies (parse_dependencies json_loads fs file_info self)) =
    npm_deps (dependencies self) ∧
  yarn_deps (dependencies (parse_dependencies json_loads fs file_info self)) =
    yarn_deps (dependencies self).
Proof.
  intros Hkind. unfold parse_dependencies. rewrite Hkind.
  by destruct (read_text fs (fi_path file_info)).
Qed.

(** The manifests of [d] that go through the resolver. *)
Definition resolver_manifest_of (d : path) (file_info : FileInfo) : bool :=
  bool_decide (parent (fi_path file_info) = d) && resolved_kind file_info.

(** With [d] cached as unknown, the loop ends as if the package.json and
    yarn.lock of [d] had not been listed. *)
Lemma parse_all_unknown fs files self d :
  package_managers self !! d = Some None →
  parse_all json_loads fs files self =
  parse_all json_loads fs
    (filter (λ file_info, resolver_manifest_of d file_info = false) files) self.
Proof.
  revert self. induction files as [|file_info files IH]; intros self Hd; [done|].
  rewrite filter_cons. unfold parse_all in *. simpl.
  destruct (resolver_manifest_of d file_info) eqn:Hmanifest.
  - rewrite decide_False by done.
    apply andb_prop in Hmanifest as [Hparent%bool_decide_eq_true Hkind].
    rewrite parse_dependencies_unknown; [by apply IH| by rewrite Hparent |].
    intros Hpython. unfold resolved_kind in Hkind. by rewrite Hpython in Hkind.
  - rewrite decide_True by done. simpl. apply IH. by apply parse_dependencies_stable.
Qed.

(** In a scan, the manifests come from the tree itself: the directory of a
    package.json or yarn.lock that was found is never resolved to unknown. *)
Lemma found_directories_resolved fs self files file_info :
  wf_tree fs → repo_path self = Some [] →
  find_dependency_files fs self = Ok files →
  file_info ∈ files → resolved_kind file_info = true →
  detect_package_manager json_loads fs (parent (fi_path file_info)) ≠ None.
Proof.
  intros Hwf Hroot. unfold find_dependency_files. rewrite Hroot. simpl.
  intros [= <-] Hin Hkind.
  apply list_elem_of_omap in Hin as ([p x] & Hin & Hfi).
  revert Hfi. simpl. destruct (is_file x && is_manifest (name_of p)); [|done].
  intros [= <-].
  destruct (rglob_lookup fs Hwf [] p x Hin) as (suffix & Hne & -> & Hlookup).
  simpl in *.
  assert (exists_ fs (child (parent suffix) (name_of suffix)) = true) as Hfile
    by (rewrite parent_child by done; unfold exists_; by rewrite Hlookup).
  unfold detect_package_manager. rewrite (exists_child _ _ _ Hfile). simpl.
  revert Hkind. unfold resolved_kind, _get_file_type. simpl.
  destruct (string_eqb (name_of suffix) "package.json") eqn:Hjson.
  - intros _. apply string_eqb_true in Hjson.
    rewrite Hjson in Hfile. rewrite Hfile. by repeat case_match.
  - destruct (string_eqb (name_of suffix) "yarn.lock") eqn:Hlock.
    + intros _. apply string_eqb_true in Hlock.
      rewrite Hlock in Hfile. by rewrite Hfile.
    + by destruct (string_eqb (name_of suffix) "requirements.txt").
Qed.

(** Where an entry of the cache comes from, with the manifest that asked. *)
Lemma parse_all_cache_asked fs files self d v :
  package_managers (parse_all json_loads fs files self) !! d = Some v →
  package_managers self !! d = Some v ∨
  (v = detect_package_manager json_loads fs d ∧
   ∃ file_info, file_info ∈ files ∧ parent (fi_path file_info) = d ∧
                resolved_kind file_info = true).
Proof.
  revert self. induction files as [|file_info files IH]; intros self Hd; [by left|].
  apply IH in Hd as [Hd|(Hv & fi & Hfi & Hparent)].
  - rewrite parse_dependencies_cache in Hd.
    destruct (resolved_kind file_info) eqn:Hkind; [|by left].
    destruct (package_managers self !! parent (fi_path file_info)); [by left|].
    apply lookup_insert_Some in Hd as [[<- <-]|[_ Hd]]; [|by left].
    right. split; [done|]. exists file_info. split; [left|done].
  - right. split; [done|]. exists fi. split; [by right|done].
Qed.

(** In a scan the manifests are the ones found in the clone, and the loop
    starts from the scanner as [clone_repository] leaves it: at no point of
    the loop is a directory cached as unknown. *)
Lemma scan_never_unknown url nm scanner fs files pre post d :
  clone_repository clone_from (__init__ url nm) = Ok (scanner, fs) →
  wf_tree fs → find_dependency_files fs scanner = Ok files →
  files = (pre ++ post)%list →
  package_managers (parse_all json_loads fs pre scanner) !! d ≠ Some None.
Proof.
  unfold clone_repository. simpl. destruct (clone_from url) as [fs'|e]; simpl; [|done].
  intros [= <- <-] Hwf Hfiles -> Hd.
  apply parse_all_cache_asked in Hd as [Hd|(Hv & fi & Hfi & <- & Hkind)].
  - simpl in Hd. by rewrite lookup_empty in Hd.
  - symmetry in Hv. revert Hv.
    eapply found_directories_resolved; [done| |exact Hfiles| |done]; [done|].
    apply elem_of_app. by left.
Qed.

(** C7. Once a directory is cached as unknown it stays unknown for the rest
    of the loop, whatever the tree holds by then: the resolver is not asked
    again.  From then on a package.json or yarn.lock of that directory
    leaves the scanner as it is, no file of the directory touches the npm or
    yarn list, and the loop ends as if those manifests had not been listed.
    (A requirements.txt does not go through the resolver and only touches
    the python list.)  In a scan, where the manifests are the ones found in
    the clone, no directory is ever cached as unknown, so the invariant
    holds as worded at every point of the loop, for every file. *)
Theorem unknown_directory_skipped :
  (∀ fs files self d,
      package_managers self !! d = Some None →
      let scanner := parse_all json_loads fs files self in
      package_managers scanner !! d = Some None ∧
      (∀ file_info,
          parent (fi_path file_info) = d → fi_type file_info ≠ Some python →
          parse_dependencies json_loads fs file_info scanner = scanner) ∧
      (∀ file_info,
          parent (fi_path file_info) = d →
          npm_deps (dependencies (parse_dependencies json_loads fs file_info scanner)) =
            npm_deps (dependencies scanner) ∧
          yarn_deps (dependencies (parse_dependencies json_loads fs file_info scanner)) =
            yarn_deps (dependencies scanner)) ∧
      scanner =
        parse_all json_loads fs
          (filter (λ file_info, resolver_manifest_of d file_info = false) files) self) ∧
  (∀ url nm scanner fs files pre post,
      clone_repository clone_from (__init__ url nm) = Ok (scanner, fs) →
      wf_tree fs → find_dependency_files fs scanner = Ok files →
      files = (pre ++ post)%list →
      (∀ d, package_managers (parse_all json_loads fs pre scanner) !! d ≠ Some None) ∧
      (∀ file_info,
          records_nothing_when_unknown fs file_info (parse_all json_loads fs pre scanner))).
Proof.
  split.
  - intros fs files self d Hd scanner.
    assert (package_managers scanner !! d = Some None) as Hscanner
      by by apply parse_all_stable.
    split; [done|]. split; [|split].
    + intros file_info <- Hkind. by apply parse_dependencies_unknown.
    + intros file_info <-. destruct (decide (fi_type file_info = Some python)) as [Hk|Hk].
      * by apply parse_dependencies_python_only.
      * by rewrite parse_dependencies_unknown.
    + by apply parse_all_unknown.
  - intros url nm scanner fs files pre post Hclone Hwf Hfiles Hsplit.
    assert (∀ d, package_managers (parse_all json_loads fs pre scanner) !! d ≠ Some None)
      as Hnever by (intros d; by eapply scan_never_unknown).
    split; [done|]. intros file_info Hunknown. by destruct (Hnever _ Hunknown).
Qed.

(** ** The orchestrator *)

(** What a repository's scan amounts to: the value of the [try] body, or the
    error result built by the handler. *)
Definition scan_outcome (url nm : string) : ScanResult :=
  match scan_stages json_loads clone_from requests_get url nm with
  | Ok r => r
  | Raise e => Errored nm e
  end.

Definition not_excluded (EXCLUDED_REPOS : list string) (repo : Repo) : Prop :=
  repo_listed_name repo ∉ EXCLUDED_REPOS.

#[local] Instance not_excluded_dec EXCLUDED_REPOS repo :
  Decision (not_excluded EXCLUDED_REPOS repo).
Proof. unfold not_excluded. apply _. Defined.

Lemma scan_repository_returns url nm :
  scan_repository json_loads clone_from requests_get url nm = Ok (scan_outcome url nm).
Proof.
  unfold scan_repository, scan_outcome, try_except.
  by destruct (scan_stages _ _ _ url nm).
Qed.




(** The loop of [main] never raises: it appends one result per repository
    that is not excluded, in order. *)
Lemma main_loop_results EXCLUDED_REPOS repos results :
  main_loop json_loads clone_from requests_get EXCLUDED_REPOS repos results =
    Ok (results ++ map (λ repo, scan_outcome (clone_url repo) (repo_listed_name repo))
                       (filter (not_excluded EXCLUDED_REPOS) repos))%list.
Proof.
  revert results. induction repos as [|repo repos IH]; intros results; simpl.
  - by rewrite app_nil_r.
  - destruct (mem (repo_listed_name repo) EXCLUDED_REPOS) eqn:Hmem.
    + apply mem_true in Hmem. rewrite IH. by rewrite filter_cons_False by (by intros ?).
    + apply mem_false in Hmem. rewrite scan_repository_returns. simpl.
      rewrite IH, filter_cons_True by done. simpl. by rewrite <- (assoc_L _ results).
Qed.


(** ** The advisory lookup *)









End Properties.

(** * Examples

    Closed instances: the JSON reader above stands for [json.loads], a tree
    with one Python project for the clone, and an advisory source that
    cannot be reached. *)

Definition quoted (s : string) : string := String quote s +:+ String quote EmptyString.

(** [{"dependencies":{"a":"1.0.0"},"devDependencies":{"a":"2.0.0"}}] *)
Definition package_json_example : string :=
  "{" +:+ quoted "dependencies" +:+ ":{" +:+ quoted "a" +:+ ":" +:+ quoted "1.0.0" +:+ "},"
      +:+ quoted "devDependencies" +:+ ":{" +:+ quoted "a" +:+ ":" +:+ quoted "2.0.0" +:+ "}}".

(** [{"packageManager": "yarn@3.0.0"}] *)
Definition package_json_yarn : string :=
  "{" +:+ quoted "packageManager" +:+ ": " +:+ quoted "yarn@3.0.0" +:+ "}".

(** A clone with one directory that holds only a requirements.txt. *)
Definition flask_tree : node :=
  Dir [("app", Dir [("requirements.txt", File (Some "flask"))])].

Definition package_json_info : FileInfo :=
  {| fi_path := ["app"; "package.json"]; fi_type := Some npm; fi_directory := ["app"] |}.

Definition requirements_info : FileInfo :=
  {| fi_path := ["app"; "requirements.txt"]; fi_type := Some python;
     fi_directory := ["app"] |}.

(** The scanner once [parse_dependencies] has been handed a package.json of
    [app] that the tree does not hold: [app] is resolved, to unknown. *)
Definition unknown_scanner : DependencyScanner :=
  parse_dependencies Reader.json_loads flask_tree package_json_info (__init__ "url" "repo").

(** The same clone once [app] holds a package.json. *)
Definition app_tree : node :=
  Dir [("app", Dir [("package.json", File (Some package_json_example));
                    ("requirements.txt", File (Some "flask"))])].

(** The scanner as [clone_repository] leaves it, and a clone of [app_tree]. *)
Definition fresh_scanner : DependencyScanner :=
  {| repo_url := "url"; repo_name := "repo"; repo_path := Some [];
     package_managers := ∅;
     dependencies := {| npm_deps := []; yarn_deps := []; python_deps := [] |} |}.
Definition cloned_app (url : string) : result node := Ok app_tree.

Definition refusing (dep_name : string) : result Response :=
  Ok {| status_code := 403; response_json := Raise "JSONDecodeError" |}.
Definition cloned (url : string) : result node := Ok flask_tree.

Lemma package_json_example_parsed :
  parse_package_json Reader.json_loads package_json_example =
    Ok [{| name := "a"; version := JStr "2.0.0" |}].
Proof. by vm_compute. Qed.

Lemma resolver_examples :
  let tree manifest := Dir [("web", Dir [("package.json", File (Some manifest))])] in
  detect_package_manager Reader.json_loads (tree package_json_yarn) ["web"] = Some yarn ∧
  detect_package_manager Reader.json_loads (tree "{}") ["web"] = Some npm ∧
  detect_package_manager Reader.json_loads (tree "not json") ["web"] = Some npm ∧
  detect_package_manager Reader.json_loads flask_tree ["app"] = None.
Proof. by vm_compute. Qed.

Lemma package_json_union_witness :
  ∃ new, parse_package_json Reader.json_loads package_json_example = Ok new ∧
         NoDup (map name new) ∧
         ∀ n v, {| name := n; version := v |} ∈ new ↔
                union_lookup [("a", JStr "1.0.0")] [("a", JStr "2.0.0")] n = Some v.
Proof.
  apply (proj2 (proj2 (package_json_union Reader.json_loads package_json_example))
           [("dependencies", JObj [("a", JStr "1.0.0")]);
            ("devDependencies", JObj [("a", JStr "2.0.0")])]).
  - vm_compute. reflexivity.
  - vm_compute. reflexivity.
  - right. vm_compute. reflexivity.
  - right. vm_compute. reflexivity.
  - apply NoDup_singleton.
  - apply NoDup_singleton.
Defined.

(** [app] was resolved to unknown when it held no package.json.  It holds
    one by now, which the resolver would answer with npm; the cached answer
    is kept, the package.json is skipped, and the loop records what it
    records for the requirements.txt alone.  A scan of the same clone
    resolves [app] from the package.json it found there, and caches no
    directory as unknown. *)
Lemma unknown_directory_skipped_witness :
  (package_managers unknown_scanner !! ["app"] = Some None ∧
   detect_package_manager Reader.json_loads app_tree ["app"] = Some npm ∧
   let scanner :=
     parse_all Reader.json_loads app_tree [package_json_info; requirements_info]
       unknown_scanner in
   package_managers scanner !! ["app"] = Some None ∧
   (∀ file_info,
       parent (fi_path file_info) = ["app"] → fi_type file_info ≠ Some python →
       parse_dependencies Reader.json_loads app_tree file_info scanner = scanner) ∧
   (∀ file_info,
       parent (fi_path file_info) = ["app"] →
       npm_deps (dependencies (parse_dependencies Reader.json_loads app_tree file_info scanner)) =
         npm_deps (dependencies scanner) ∧
       yarn_deps (dependencies (parse_dependencies Reader.json_loads app_tree file_info scanner)) =
         yarn_deps (dependencies scanner)) ∧
   scanner =
     parse_all Reader.json_loads app_tree
       (filter (λ file_info, resolver_manifest_of ["app"] file_info = false)
          [package_json_info; requirements_info])
       unknown_scanner) ∧
  (find_dependency_files app_tree fresh_scanner = Ok [package_json_info; requirements_info] ∧
   let scanner := parse_all Reader.json_loads app_tree [package_json_info] fresh_scanner in
   package_managers scanner !! ["app"] = Some (Some npm) ∧
   (∀ d, package_managers scanner !! d ≠ Some None) ∧
   (∀ file_info, records_nothing_when_unknown Reader.json_loads app_tree file_info scanner)).
Proof.
  split.
  - split; [vm_compute; reflexivity|]. split; [vm_compute; reflexivity|].
    apply (proj1 (unknown_directory_skipped Reader.json_loads cloned)
             app_tree [package_json_info; requirements_info] unknown_scanner ["app"]).
    vm_compute. reflexivity.
  - split; [vm_compute; reflexivity|]. split; [vm_compute; reflexivity|].
    apply (proj2 (unknown_directory_skipped Reader.json_loads cloned_app)
             "url" "repo" fresh_scanner app_tree [package_json_info; requirements_info]
             [package_json_info] [requirements_info]).
    + reflexivity.
    + repeat (constructor || apply NoDup_singleton || (apply NoDup_cons; split)
              || (intros Hin; by repeat (apply elem_of_cons in Hin as [?|Hin]; [done|]);
                  apply elem_of_nil in Hin)).
    + vm_compute. reflexivity.
    + reflexivity.
Defined.



Lemma scan_errors_absorbed_example :
  main Reader.json_loads
    (λ url, if string_eqb url "bad" then Raise "GitCommandError" else Ok flask_tree)
    refusing ["skipped"]
    [ {| repo_listed_name := "first"; clone_url := "bad" |};
      {| repo_listed_name := "skipped"; clone_url := "good" |};
      {| repo_listed_name := "last"; clone_url := "good" |} ]
  = Ok [ Errored "first" "GitCommandError";
         Scanned "last"
           {| npm_deps := []; yarn_deps := [];
              python_deps := [{| name := "flask"; version := unknown |}] |} [] ].
Proof. by vm_compute. Qed.

(** A decision is reused even when the directory has changed meanwhile:
    [web] is resolved to npm from its package.json; a yarn.lock that shows
    up later does not change the cached answer, and is skipped. *)
Lemma cached_decision_reused :
  let before := Dir [("web", Dir [("package.json", File (Some "{}"))])] in
  let after := Dir [("web", Dir [("package.json", File (Some "{}"));
                                 ("yarn.lock", File (Some lodash_lock))])] in
  let manifest nm kind :=
    {| fi_path := ["web"; nm]; fi_type := Some kind; fi_directory := ["web"] |} in
  let first := parse_dependencies Reader.json_loads before (manifest "package.json" npm)
                 (__init__ "url" "repo") in
  let second := parse_dependencies Reader.json_loads after (manifest "yarn.lock" yarn) first in
  package_managers first !! ["web"] = Some (Some npm) ∧
  detect_package_manager Reader.json_loads after ["web"] = Some yarn ∧
  package_managers second !! ["web"] = Some (Some npm) ∧
  dependencies second = dependencies first.
Proof. by vm_compute. Qed.

(** * Further properties

    The rest of this file covers what the scan does beyond the statements
    above: what the locator finds, how the manifests accumulate, how the
    parsers degrade, the advisory check, the batch driver, the repository
    listing and the reporter's figures. *)

(** ** The Manifest Locator: [find_dependency_files] *)

Lemma entry_Some_elem_of n x es : entry n es = Some x → (n, x) ∈ es.
Proof.
  induction es as [|[n' x'] es IH]; simpl; [done|]. case_eqb.
  - intros [= ->]. simplify_eq. left.
  - intros Hin. right. by apply IH.
Qed.

Lemma wf_tree_lookup fs p x : wf_tree fs → lookup_path fs p = Some x → wf_tree x.
Proof.
  revert fs. induction p as [|c p IH]; intros fs Hwf; simpl; [by intros [= <-]|].
  destruct fs as [|es]; [done|]. destruct (entry c es) as [z|] eqn:Hentry; [|done].
  apply IH. inversion_clear Hwf as [|? _ Hchildren].
  rewrite Forall_forall in Hchildren.
  by apply (Hchildren (c, z)), entry_Some_elem_of.
Qed.

(** Everything below a directory is listed by [rglob]. *)
Lemma rglob_complete suffix :
  ∀ x here y, suffix ≠ [] → lookup_path x suffix = Some y →
  ((here ++ suffix)%list, y) ∈ rglob here x.
Proof.
  induction suffix as [|c rest IH]; intros x here y Hne; [done|]. simpl.
  destruct x as [|es]; [done|]. destruct (entry c es) as [z|] eqn:Hentry; [|done].
  apply entry_Some_elem_of in Hentry. intros Hrest. simpl. apply elem_of_app.
  destruct rest as [|c' rest'].
  - left. injection Hrest as <-. apply list_elem_of_fmap. by exists (c, z).
  - right. apply list_elem_of_In, in_flat_map. exists (c, z).
    split; [by apply list_elem_of_In|]. apply list_elem_of_In. simpl.
    specialize (IH z (child here c) y). unfold child in *.
    rewrite <- (assoc_L _ here) in IH. by apply IH.
Qed.

(** What makes a [FileInfo] a manifest of the tree: a file strictly below
    [root], named like a manifest, tagged by its name, with its directory. *)
Definition manifest_of (fs : node) (root : path) (file_info : FileInfo) : Prop :=
  ∃ suffix content,
    suffix ≠ [] ∧ fi_path file_info = (root ++ suffix)%list ∧
    lookup_path fs (fi_path file_info) = Some (File content) ∧
    is_manifest (name_of (fi_path file_info)) = true ∧
    fi_type file_info = _get_file_type (name_of (fi_path file_info)) ∧
    is_Some (fi_type file_info) ∧
    fi_directory file_info = parent (fi_path file_info).

Lemma is_manifest_type filename :
  is_manifest filename = true → is_Some (_get_file_type filename).
Proof.
  unfold is_manifest, _get_file_type. intros Hin%mem_true.
  rewrite !elem_of_cons in Hin.
  destruct Hin as [->|[->|[->|Hin]]]; [vm_compute; by eexists..|by apply elem_of_nil in Hin].
Qed.

(** X1. In a tree whose directories hold each name once, the files found
    are exactly the manifests of the tree: every regular file at any depth
    below the root named package.json, yarn.lock or requirements.txt, each
    tagged npm, yarn or python by its name and paired with its directory;
    directories and files of other names are never listed. *)
Theorem find_dependency_files_exact (fs : node) (self : DependencyScanner)
    (root : path) (files : list FileInfo) :
  wf_tree fs → repo_path self = Some root →
  find_dependency_files fs self = Ok files →
  ∀ file_info, file_info ∈ files ↔ manifest_of fs root file_info.
Proof.
  intros Hwf Hroot. unfold find_dependency_files. rewrite Hroot. intros [= <-] file_info.
  rewrite list_elem_of_omap. split.
  - intros ([p x] & Hin & Hfi). revert Hfi. simpl.
    destruct (is_file x) eqn:Hfile; [|done]. simpl.
    destruct (is_manifest (name_of p)) eqn:Hname; [|done]. intros [= <-].
    destruct (lookup_path fs root) as [top|] eqn:Htop; [|by apply elem_of_nil in Hin].
    destruct (rglob_lookup top (wf_tree_lookup _ _ _ Hwf Htop) root p x Hin)
      as (suffix & Hne & -> & Hlookup).
    destruct x as [content|]; [|done].
    exists suffix, content. simpl. repeat split; try done.
    + by rewrite lookup_path_app, Htop.
    + by apply is_manifest_type.
  - intros (suffix & content & Hne & Hpath & Hlookup & Hname & Htype & _ & Hdir).
    exists (fi_path file_info, File content). simpl. rewrite Hname. split.
    + rewrite Hpath in Hlookup |- *. rewrite lookup_path_app in Hlookup.
      destruct (lookup_path fs root) as [top|]; [|done]. by apply rglob_complete.
    + destruct file_info. simpl in *. by rewrite Htype, Hdir.
Qed.

(** ** Resolution and accumulation during a scan *)

Definition resolved (pm : option tag) : Prop := pm = Some npm ∨ pm = Some yarn.

(** The ecosystem lists only grow: what was recorded keeps its place. *)
Definition grows (before after : DependencySet) : Prop :=
  npm_deps before `prefix_of` npm_deps after ∧
  yarn_deps before `prefix_of` yarn_deps after ∧
  python_deps before `prefix_of` python_deps after.

Lemma extend_nil t ds : extend t [] ds = ds.
Proof. destruct t, ds; simpl; by rewrite app_nil_r. Qed.

Lemma grows_refl ds : grows ds ds.
Proof. by repeat split. Qed.

Lemma grows_trans a b c : grows a b → grows b c → grows a c.
Proof. intros (? & ? & ?) (? & ? & ?). repeat split; by etrans. Qed.

Lemma grows_extend t new ds : grows ds (extend t new ds).
Proof. destruct t; repeat split; simpl; try done; by apply prefix_app_r. Qed.

(** A tree with a JavaScript project that also has Python requirements. *)
Definition web_tree : node :=
  Dir [("web", Dir [("package.json", File (Some package_json_example));
                    ("requirements.txt", File (Some requirements_example))])].

Lemma wf_web_tree : wf_tree web_tree.
Proof.
  repeat (constructor || apply NoDup_singleton || (apply NoDup_cons; split)
          || (intros Hin; by repeat (apply elem_of_cons in Hin as [?|Hin]; [done|]);
              apply elem_of_nil in Hin)).
Defined.

Section Coverage.

Variable json_loads : string -> result json.
Variable clone_from : string -> result node.
Variable requests_get : string -> result Response.

Lemma detect_package_manager_values fs directory :
  detect_package_manager json_loads fs directory = None ∨
  resolved (detect_package_manager json_loads fs directory).
Proof.
  unfold detect_package_manager, resolved.
  repeat case_match; auto.
Qed.

(** X2. Over the manifests that [find_dependency_files] returns for a tree
    whose directories hold each name once, resolution never ends in unknown:
    every directory the loop caches is resolved to npm or to yarn, because
    the manifest that asked is itself evidence in its directory. *)
Theorem found_directories_never_unknown (fs : node) (self : DependencyScanner)
    (files : list FileInfo) :
  wf_tree fs → repo_path self = Some [] →
  find_dependency_files fs self = Ok files →
  (∀ d v, package_managers self !! d = Some v → resolved v) →
  ∀ d v, package_managers (parse_all json_loads fs files self) !! d = Some v → resolved v.
Proof.
  intros Hwf Hroot Hfiles Hself d v Hd.
  apply parse_all_cache_asked in Hd as [Hd|(-> & fi & Hfi & <- & Hkind)];
    [by eapply Hself|].
  destruct (detect_package_manager_values fs (parent (fi_path fi))) as [Hnone|]; [|done].
  by destruct (found_directories_resolved json_loads fs self files fi).
Qed.

Lemma parse_dependencies_extends fs file_info self :
  ∃ t new, dependencies (parse_dependencies json_loads fs file_info self)
           = extend t new (dependencies self).
Proof.
  unfold parse_dependencies.
  repeat case_match; simpl;
    first [ by exists npm, []; rewrite extend_nil
          | eexists _, _; reflexivity
          | eexists yarn, _; reflexivity
          | eexists python, _; reflexivity ].
Qed.

(** X3. A manifest appends to one ecosystem list and leaves the other two
    as they were; over the whole loop each list only grows, so nothing that
    was recorded is ever dropped, replaced or reordered. *)
Theorem dependencies_only_grow :
  (∀ fs file_info self,
      ∃ t new, dependencies (parse_dependencies json_loads fs file_info self)
               = extend t new (dependencies self)) ∧
  (∀ fs files self,
      grows (dependencies self) (dependencies (parse_all json_loads fs files self))).
Proof.
  split; [apply parse_dependencies_extends|].
  intros fs files. induction files as [|file_info files IH]; intros self;
    [apply grows_refl|].
  eapply grows_trans; [|apply IH].
  destruct (parse_dependencies_extends fs file_info self) as (t & new & ->).
  apply grows_extend.
Qed.

(** The package manager a manifest of [directory] is processed under: the
    cached answer if there is one, the resolver's otherwise. *)
Definition decision (fs : node) (self : DependencyScanner) (directory : path) : option tag :=
  match package_managers self !! directory with
  | Some pm => pm
  | None => detect_package_manager json_loads fs directory
  end.

Lemma parse_dependencies_decision fs file_info self :
  resolved_kind file_info = true →
  ∃ scanner,
    dependencies scanner = dependencies self ∧
    package_managers scanner !! parent (fi_path file_info)
      = Some (decision fs self (parent (fi_path file_info))) ∧
    parse_dependencies json_loads fs file_info self =
      match decision fs self (parent (fi_path file_info)) with
      | Some package_manager =>
          if string_eqb (name_of (fi_path file_info)) "package.json" then
            match (content ← read_text fs (fi_path file_info);
                   parse_package_json json_loads content) with
            | Ok new => extend_dependencies package_manager new scanner
            | Raise _ => scanner
            end
          else if string_eqb (name_of (fi_path file_info)) "yarn.lock" then
            if bool_decide (package_manager = yarn) then
              match (content ← read_text fs (fi_path file_info); parse_yarn_lock content) with
              | Ok new => extend_dependencies yarn new scanner
              | Raise _ => scanner
              end
            else scanner
          else scanner
      | None => scanner
      end.
Proof.
  unfold resolved_kind, decision, parse_dependencies. intros Hkind.
  destruct (package_managers self !! parent (fi_path file_info)) as [pm|] eqn:Hpm.
  - exists self. rewrite Hpm. split; [done|]. split; [done|].
    by destruct (fi_type file_info) as [[]|].
  - eexists (set_package_manager _ _ self). simpl.
    split; [done|]. split; [apply lookup_insert_eq|].
    destruct (fi_type file_info) as [[]|]; try done; by rewrite lookup_insert_eq.
Qed.

(** X4. A package.json is recorded under the manager its directory was
    resolved to, not under its own kind: beside a yarn.lock its entries go
    to the yarn list.  A yarn.lock is recorded, under yarn, only in a
    directory resolved to yarn; under npm it is skipped. *)
Theorem manifest_recorded_under_decision (fs : node) (file_info : FileInfo)
    (self : DependencyScanner) (content : string) :
  resolved_kind file_info = true →
  read_text fs (fi_path file_info) = Ok content →
  (∀ t new,
      name_of (fi_path file_info) = "package.json" →
      decision fs self (parent (fi_path file_info)) = Some t →
      parse_package_json json_loads content = Ok new →
      dependencies (parse_dependencies json_loads fs file_info self)
        = extend t new (dependencies self)) ∧
  (∀ t,
      name_of (fi_path file_info) = "yarn.lock" →
      decision fs self (parent (fi_path file_info)) = Some t →
      ∃ new, parse_yarn_lock content = Ok new ∧
        dependencies (parse_dependencies json_loads fs file_info self)
          = if bool_decide (t = yarn) then extend yarn new (dependencies self)
            else dependencies self).
Proof.
  intros Hkind Hread.
  destruct (parse_dependencies_decision fs file_info self Hkind)
    as (scanner & Hdeps & _ & ->).
  rewrite Hread. simpl. split.
  - intros t new -> -> ->. simpl. by rewrite Hdeps.
  - intros t -> ->. simpl.
    destruct (parse_yarn_lock_names content) as (new & -> & _).
    exists new. split; [done|]. case_bool_decide; simpl; by rewrite ?Hdeps.
Qed.

(** X5. A manifest that fails contributes nothing and disturbs nothing
    already recorded: a file that cannot be read, whatever its kind; a
    package.json that is not JSON; and a package.json in which
    [dependencies] or [devDependencies] is present but not an object, in
    which case the other field is dropped with it. *)
Theorem failing_manifest_contributes_nothing :
  (∀ fs file_info self e,
      read_text fs (fi_path file_info) = Raise e →
      dependencies (parse_dependencies json_loads fs file_info self) = dependencies self) ∧
  (∀ fs file_info self content e,
      resolved_kind file_info = true →
      name_of (fi_path file_info) = "package.json" →
      read_text fs (fi_path file_info) = Ok content →
      json_loads content = Raise e →
      dependencies (parse_dependencies json_loads fs file_info self) = dependencies self) ∧
  (∀ fs file_info self content d key v,
      resolved_kind file_info = true →
      name_of (fi_path file_info) = "package.json" →
      read_text fs (fi_path file_info) = Ok content →
      json_loads content = Ok (JObj d) →
      key = "dependencies" ∨ key = "devDependencies" →
      dict_get key d = Some v → (∀ o, v ≠ JObj o) →
      dependencies (parse_dependencies json_loads fs file_info self) = dependencies self).
Proof.
  split; [|split].
  - intros fs file_info self e Hread.
    destruct (resolved_kind file_info) eqn:Hkind.
    + destruct (parse_dependencies_decision fs file_info self Hkind)
        as (scanner & Hdeps & _ & ->).
      rewrite Hread. simpl. by repeat case_match.
    + unfold parse_dependencies, resolved_kind in *.
      destruct (fi_type file_info) as [[]|]; try done. by rewrite Hread.
  - intros fs file_info self content e Hkind Hname Hread Hjson.
    destruct (parse_dependencies_decision fs file_info self Hkind)
      as (scanner & Hdeps & _ & ->).
    rewrite Hname, Hread. simpl. unfold parse_package_json. rewrite Hjson.
    destruct (decision _ _ _); [|done].
    destruct (nonempty (strip content)); simpl; [done|]. by rewrite extend_nil.
  - intros fs file_info self content d key v Hkind Hname Hread Hjson Hkey Hget Hv.
    destruct (parse_dependencies_decision fs file_info self Hkind)
      as (scanner & Hdeps & _ & ->).
    rewrite Hname, Hread. simpl. unfold parse_package_json. rewrite Hjson.
    destruct (decision _ _ _); [|done].
    destruct (nonempty (strip content)); simpl; [|by rewrite extend_nil].
    assert (∀ acc, dict_unpack acc v = Raise "TypeError: object is not a mapping")
      as Hunpack by (intros acc; destruct v; try done; by destruct (Hv kvs)).
    destruct Hkey as [-> | ->]; rewrite Hget; simpl.
    + by rewrite Hunpack.
    + destruct (dict_unpack [] _); simpl; [by rewrite Hunpack|done].
Qed.

(** What a manifest contributes, and to which list, when its directory is
    processed under [pm]: it depends on the tree only. *)
Definition contribution (fs : node) (pm : option tag) (file_info : FileInfo)
    : tag * list Dependency :=
  let file_path := fi_path file_info in
  match fi_type file_info with
  | Some python =>
      (python, match read_text fs file_path with
               | Ok content => parse_requirements content
               | Raise _ => []
               end)
  | Some _ =>
      match pm with
      | Some package_manager =>
          if string_eqb (name_of file_path) "package.json" then
            (package_manager,
             match (content ← read_text fs file_path; parse_package_json json_loads content) with
             | Ok new => new
             | Raise _ => []
             end)
          else if string_eqb (name_of file_path) "yarn.lock" then
            (yarn,
             if bool_decide (package_manager = yarn) then
               match (content ← read_text fs file_path; parse_yarn_lock content) with
               | Ok new => new
               | Raise _ => []
               end
             else [])
          else (npm, [])
      | None => (npm, [])
      end
  | None => (npm, [])
  end.

Definition record (item : tag * list Dependency) (ds : DependencySet) : DependencySet :=
  extend item.1 item.2 ds.

(** The resolver asked afresh for every manifest, with no cache at all. *)
Definition parse_all_uncached (fs : node) (files : list FileInfo)
    (ds : DependencySet) : DependencySet :=
  fold_left
    (λ ds file_info,
       record (contribution fs (detect_package_manager json_loads fs
                                  (parent (fi_path file_info))) file_info) ds)
    files ds.

Lemma fold_left_ext {A B} (f g : A → B → A) (l : list B) (a : A) :
  (∀ a x, f a x = g a x) → fold_left f l a = fold_left g l a.
Proof.
  intros Hfg. revert a. induction l as [|x l IH]; intros a; [done|]. simpl.
  by rewrite Hfg, IH.
Qed.

Lemma parse_dependencies_contribution fs file_info self :
  dependencies (parse_dependencies json_loads fs file_info self) =
    record (contribution fs (decision fs self (parent (fi_path file_info))) file_info)
           (dependencies self).
Proof.
  unfold record. destruct (resolved_kind file_info) eqn:Hkind.
  - destruct (parse_dependencies_decision fs file_info self Hkind)
      as (scanner & Hdeps & _ & ->).
    unfold contribution, resolved_kind in *.
    destruct (fi_type file_info) as [[]|]; try done;
      repeat case_match; simpl; rewrite ?extend_nil, ?Hdeps, ?app_nil_r; try done;
      by destruct (dependencies self).
  - unfold parse_dependencies, contribution, resolved_kind in *.
    destruct (fi_type file_info) as [[]|]; try done; simpl.
    + destruct (read_text fs (fi_path file_info)); simpl; [done|].
      rewrite app_nil_r. by destruct (dependencies self).
    + rewrite app_nil_r. by destruct (dependencies self).
Qed.

(** Processing a manifest does not change the decision for any directory:
    what gets cached is what the resolver would answer anyway. *)
Lemma decision_stable fs file_info self d :
  decision fs (parse_dependencies json_loads fs file_info self) d = decision fs self d.
Proof.
  unfold decision. rewrite parse_dependencies_cache.
  destruct (resolved_kind file_info); [|done].
  destruct (package_managers self !! parent (fi_path file_info)) eqn:Hdir; [done|].
  destruct (decide (parent (fi_path file_info) = d)) as [<-|Hne].
  - by rewrite lookup_insert_eq, Hdir.
  - by rewrite lookup_insert_ne.
Qed.

Lemma parse_all_contributions fs files self :
  dependencies (parse_all json_loads fs files self) =
    fold_left
      (λ ds file_info,
         record (contribution fs (decision fs self (parent (fi_path file_info))) file_info) ds)
      files (dependencies self).
Proof.
  revert self. induction files as [|file_info files IH]; intros self; [done|]. simpl.
  change (fold_left _ files (parse_dependencies json_loads fs file_info self))
    with (parse_all json_loads fs files (parse_dependencies json_loads fs file_info self)).
  rewrite IH, parse_dependencies_contribution.
  apply fold_left_ext. intros ds fi. by rewrite decision_stable.
Qed.

(** The cache agrees with the tree: each stored answer is the resolver's. *)
Definition consistent (fs : node) (self : DependencyScanner) : Prop :=
  ∀ d pm, package_managers self !! d = Some pm → pm = detect_package_manager json_loads fs d.

(** X14. Over an unchanging tree the cache is transparent: starting from a
    cache that agrees with the tree, the empty one in particular, the loop
    records exactly what it would record if the resolver were asked afresh
    for every manifest.  Each manifest's entries therefore depend on the
    tree alone, not on which manifests were processed before it. *)
Theorem cache_is_transparent (fs : node) (files : list FileInfo) (self : DependencyScanner) :
  consistent fs self →
  dependencies (parse_all json_loads fs files self) =
    parse_all_uncached fs files (dependencies self).
Proof.
  intros Hself. rewrite parse_all_contributions. apply fold_left_ext.
  intros ds file_info. f_equal. f_equal. unfold decision.
  destruct (package_managers self !! parent (fi_path file_info)) as [pm|] eqn:Hpm; [|done].
  by apply Hself.
Qed.


End Coverage.

(** ** String handling in the parsers *)

Lemma ascii_eqb_sym a b : ascii_eqb a b = ascii_eqb b a.
Proof.
  destruct (ascii_eqb a b) eqn:Hab, (ascii_eqb b a) eqn:Hba; try done.
  - apply ascii_eqb_true in Hab as ->.
    by rewrite (proj2 (ascii_eqb_true b b) eq_refl) in Hba.
  - apply ascii_eqb_true in Hba as ->.
    by rewrite (proj2 (ascii_eqb_true a a) eq_refl) in Hab.
Qed.

(** Stripping on the right stops at a character that is kept. *)
Lemma rstrip_by_app p a c b :
  p c = false →
  rstrip_by p (a +:+ String c b) = a +:+ String c (rstrip_by p b).
Proof.
  intros Hc. induction a as [|d a IH]; simpl.
  - rewrite Hc. by destruct (rstrip_by p b).
  - rewrite IH. by destruct a.
Qed.

Lemma rstrip_by_idem p s : rstrip_by p (rstrip_by p s) = rstrip_by p s.
Proof.
  induction s as [|c s IH]; simpl; [done|].
  destruct (rstrip_by p s) as [|d r] eqn:Hr.
  - destruct (p c) eqn:Hc; simpl; [done|]. by rewrite Hc.
  - simpl in *. by rewrite IH.
Qed.

Lemma lstrip_by_cons_true p c s : p c = true → lstrip_by p (String c s) = lstrip_by p s.
Proof. intros Hc. simpl. by rewrite Hc. Qed.

Lemma lstrip_by_cons_false p c s : p c = false → lstrip_by p (String c s) = String c s.
Proof. intros Hc. simpl. by rewrite Hc. Qed.

Lemma lstrip_by_head p s :
  lstrip_by p s = EmptyString ∨ ∃ c r, lstrip_by p s = String c r ∧ p c = false.
Proof.
  induction s as [|c s IH]; simpl; [by left|].
  destruct (p c) eqn:Hc; [done|]. right. by exists c, s.
Qed.

Lemma rstrip_by_head p c r :
  p c = false → ∃ r', rstrip_by p (String c r) = String c r'.
Proof. intros Hc. simpl. rewrite Hc. destruct (rstrip_by p r); by eexists. Qed.

Lemma strip_idem s : strip (strip s) = strip s.
Proof.
  unfold strip. destruct (lstrip_by_head py_isspace s) as [->|(c & r & -> & Hc)]; [done|].
  destruct (rstrip_by_head py_isspace c r Hc) as [r' Hr]. rewrite Hr.
  simpl lstrip_by. rewrite Hc, <- Hr. apply rstrip_by_idem.
Qed.

Lemma contains_char_app c a b :
  contains (String c EmptyString) (a +:+ String c b) = true.
Proof.
  induction a as [|d a IH]; simpl.
  - by rewrite (proj2 (ascii_eqb_true c c) eq_refl).
  - rewrite IH. apply orb_true_r.
Qed.

Lemma contains_char_cons c d s :
  contains (String c EmptyString) (String d s) = false →
  ascii_eqb d c = false ∧ contains (String c EmptyString) s = false.
Proof.
  simpl. intros [Hd Hs]%orb_false_elim. split; [|done].
  rewrite ascii_eqb_sym. by destruct (ascii_eqb c d).
Qed.

(** A piece without the separator, followed by the separator, is the first
    piece of the split. *)
Lemma split_app sep a b :
  contains (String sep EmptyString) a = false →
  split sep (a +:+ String sep b) = a :: split sep b.
Proof.
  induction a as [|d a IH]; simpl split.
  - intros _. by rewrite (proj2 (ascii_eqb_true sep sep) eq_refl).
  - intros [Hd Ha]%contains_char_cons. simpl. by rewrite Hd, IH.
Qed.

Lemma split_whole sep a :
  contains (String sep EmptyString) a = false → split sep a = [a].
Proof.
  induction a as [|d a IH]; [done|].
  intros [Hd Ha]%contains_char_cons. simpl. by rewrite Hd, IH.
Qed.

Lemma split_cons sep s : ∃ p ps, split sep s = p :: ps.
Proof. destruct (split_head sep s) as (p & ps & Hs & _). by exists p, ps. Qed.

(** X6. A quoted header whose name has no [@] and does not begin with a
    quote, followed by [@] and anything, proposes that name: the loop
    appends it unless it was already collected. *)
Theorem unscoped_header_name (nm rest : string) (dependencies : list string) :
  nm ≠ EmptyString → startswith quote nm = false →
  contains (String at_sign EmptyString) nm = false →
  yarn_line dependencies (String quote (nm +:+ String at_sign rest)) =
    Ok (if mem nm dependencies then dependencies else (dependencies ++ [nm])%list).
Proof.
  assert (ascii_eqb quote quote = true) as Hqq by by apply ascii_eqb_true.
  intros Hne Hquote Hat. destruct nm as [|d nm]; [done|]. clear Hne.
  apply contains_char_cons in Hat as Hd. destruct Hd as [Hd _]. simpl in Hquote.
  unfold yarn_line, strip.
  change (lstrip_by py_isspace (String quote (String d nm +:+ String at_sign rest)))
    with (String quote (String d nm) +:+ String at_sign rest).
  rewrite rstrip_by_app by done.
  change (startswith quote (String quote (String d nm) +:+ _)) with (ascii_eqb quote quote).
  rewrite Hqq. unfold strip_char.
  assert (lstrip_by (ascii_eqb quote)
            (String quote (String d nm) +:+ String at_sign (rstrip_by py_isspace rest))
          = String d nm +:+ String at_sign (rstrip_by py_isspace rest)) as ->.
  { change (String quote (String d nm) +:+ ?x) with (String quote (String d (nm +:+ x))).
    rewrite lstrip_by_cons_true by done.
    apply lstrip_by_cons_false. by rewrite ascii_eqb_sym. }
  rewrite rstrip_by_app by done.
  rewrite contains_char_app. unfold yarn_package. rewrite split_app by done.
  simpl. rewrite Hd. simpl. by destruct (mem (String d nm) dependencies).
Qed.

Lemma unscoped_header_name_witness :
  yarn_line ["react"] (String quote ("lodash" +:+ String at_sign "^4.17.0" +:+ String quote ":"))
  = Ok ["react"; "lodash"].
Proof.
  apply (unscoped_header_name "lodash" ("^4.17.0" +:+ String quote ":") ["react"]);
    [discriminate | reflexivity | reflexivity].
Defined.

(** X7. Every Dependency taken from a requirements.txt has a name that is
    not empty and carries no white space at either end, has version
    "unknown", and is the trimmed form of a line that does not begin with
    [#]; there are at most as many of them as lines. *)
Theorem requirements_names_trimmed (content : string) :
  Forall (λ dep,
            name dep ≠ EmptyString ∧ strip (name dep) = name dep ∧
            version dep = unknown ∧
            ∃ line, line ∈ readlines content ∧ name dep = strip line ∧
                    startswith hash line = false)
         (parse_requirements content) ∧
  (length (parse_requirements content) ≤ length (readlines content))%nat.
Proof.
  unfold parse_requirements. split.
  - apply Forall_forall. intros dep (req & -> & (line & -> & Hline)%list_elem_of_fmap)%list_elem_of_fmap.
    apply list_elem_of_filter in Hline as [Hkeep Hline].
    unfold keeps_requirement in Hkeep. apply andb_true_iff in Hkeep as [Hne Hhash].
    simpl. split; [by destruct (strip line)|]. split; [apply strip_idem|].
    split; [done|]. exists line. by rewrite negb_true_iff in Hhash.
  - rewrite !length_map. apply length_filter.
Qed.

(** ** The exclusion list (line 16) *)

(** [os.getenv('EXCLUDED_REPOS', '').split(',')], from the variable's value
    ([None] when it is not set). *)
Definition load_EXCLUDED_REPOS (env : option string) : list string :=
  split comma (default EmptyString env).

Definition join (sep : ascii) (pieces : list string) : string :=
  String.concat (String sep EmptyString) pieces.

Lemma join_split sep s : join sep (split sep s) = s.
Proof.
  unfold join. induction s as [|c s IH]; [done|]. simpl split.
  destruct (split_cons sep s) as (p & ps & Hs). rewrite Hs in *.
  destruct (ascii_eqb c sep) eqn:Hc.
  - apply ascii_eqb_true in Hc as ->. simpl in *. by rewrite IH.
  - simpl in *. destruct ps; simpl in *; by rewrite <- IH.
Qed.

Lemma split_join sep pieces :
  pieces ≠ [] → Forall (λ piece, contains (String sep EmptyString) piece = false) pieces →
  split sep (join sep pieces) = pieces.
Proof.
  unfold join. intros Hne Hpieces.
  induction Hpieces as [|piece pieces Hpiece Hrest IH]; [done|]. clear Hne.
  destruct pieces as [|piece' pieces]; [by apply split_whole|].
  change (String.concat _ (piece :: piece' :: pieces))
    with (piece +:+ String sep (String.concat (String sep EmptyString) (piece' :: pieces))).
  rewrite split_app by done. by rewrite IH.
Qed.

(** X8. The exclusion list holds the comma-separated pieces of the
    variable as they are, white space included: joining them with commas
    gives the variable back, a comma-joined list of names without commas is
    read back as those names, and when the variable is not set the list is
    the single empty name, so that no repository with a name is excluded. *)
Theorem exclusion_list_round_trip :
  (∀ value, join comma (load_EXCLUDED_REPOS (Some value)) = value) ∧
  (∀ names,
      names ≠ [] →
      Forall (λ nm, contains (String comma EmptyString) nm = false) names →
      load_EXCLUDED_REPOS (Some (join comma names)) = names) ∧
  (∀ nm, nm ∈ load_EXCLUDED_REPOS None ↔ nm = EmptyString).
Proof.
  split; [|split].
  - intros value. apply join_split.
  - intros names Hne Hnames. by apply split_join.
  - intros nm. unfold load_EXCLUDED_REPOS. simpl. apply list_elem_of_singleton.
Qed.

Lemma exclusion_list_round_trip_witness :
  load_EXCLUDED_REPOS (Some "legacy,docs, infra") = ["legacy"; "docs"; " infra"].
Proof.
  apply (proj1 (proj2 exclusion_list_round_trip) ["legacy"; "docs"; " infra"]);
    [discriminate | by repeat constructor].
Defined.

(** ** The advisory check and the batch driver *)

(** The dependencies in the order [check_vulnerabilities] visits them, each
    with the key of its list. *)
Definition tagged (ds : DependencySet) : list (tag * Dependency) :=
  (map (pair npm) (npm_deps ds) ++ map (pair yarn) (yarn_deps ds)
   ++ map (pair python) (python_deps ds))%list.

Section Driver.

Variable json_loads : string -> result json.
Variable clone_from : string -> result node.
Variable requests_get : string -> result Response.

(** What one lookup comes to: a match, nothing, or an exception. *)
Definition advisory_match (entry : tag * Dependency) : result (option VulnerabilityMatch) :=
  response ← requests_get (name entry.2);
  if (status_code response =? 200)%Z then
    vulns ← response_json response;
    Ok (if py_truthy vulns
        then Some {| vm_dependency := name entry.2; vm_type := entry.1;
                     vm_version := version entry.2; vm_vulnerabilities := vulns |}
        else None)
  else Ok None.

Definition found_match (entry : tag * Dependency) : option VulnerabilityMatch :=
  match advisory_match entry with
  | Ok m => m
  | Raise _ => None
  end.

Definition lookup_raises (e : string) (entry : tag * Dependency) : Prop :=
  advisory_match entry = Raise e.

Definition lookup_returns (entry : tag * Dependency) : Prop :=
  ∃ m, advisory_match entry = Ok m.

(** The three loops of [check_vulnerabilities] as one loop over the tagged
    dependencies. *)
Fixpoint check_entries (entries : list (tag * Dependency))
    (vulnerabilities : list VulnerabilityMatch) : result (list VulnerabilityMatch) :=
  match entries with
  | [] => Ok vulnerabilities
  | entry :: rest =>
      m ← advisory_match entry;
      check_entries rest (vulnerabilities ++ option_list m)%list
  end.

Lemma check_deps_entries dep_type deps vulnerabilities :
  check_deps requests_get dep_type deps vulnerabilities =
    check_entries (map (pair dep_type) deps) vulnerabilities.
Proof.
  revert vulnerabilities. induction deps as [|dep deps IH]; intros vulnerabilities; [done|].
  simpl. unfold advisory_match. simpl.
  destruct (requests_get (name dep)) as [response|]; simpl; [|done].
  destruct (status_code response =? 200)%Z; simpl; [|by rewrite app_nil_r].
  destruct (response_json response) as [vulns|]; simpl; [|done].
  destruct (py_truthy vulns); simpl; [done|by rewrite app_nil_r].
Qed.

Lemma check_entries_app l1 l2 vulnerabilities :
  check_entries (l1 ++ l2) vulnerabilities =
    check_entries l1 vulnerabilities ≫= check_entries l2.
Proof.
  revert vulnerabilities. induction l1 as [|entry l1 IH]; intros vulnerabilities; [done|].
  simpl. destruct (advisory_match entry); simpl; [apply IH|done].
Qed.

Lemma check_vulnerabilities_entries self :
  check_vulnerabilities requests_get self = check_entries (tagged (dependencies self)) [].
Proof.
  unfold check_vulnerabilities, tagged.
  rewrite check_entries_app, check_deps_entries.
  destruct (check_entries (map (pair npm) _) []) as [v1|]; simpl; [|done].
  rewrite check_entries_app, check_deps_entries.
  destruct (check_entries (map (pair yarn) _) v1) as [v2|]; simpl; [|done].
  apply check_deps_entries.
Qed.

Lemma check_entries_returns entries vulnerabilities :
  Forall lookup_returns entries →
  check_entries entries vulnerabilities = Ok (vulnerabilities ++ omap found_match entries)%list.
Proof.
  intros Hentries. revert vulnerabilities.
  induction Hentries as [|entry entries [m Hm] _ IH]; intros vulnerabilities; csimpl.
  - by rewrite app_nil_r.
  - unfold found_match. rewrite Hm. simpl. rewrite IH.
    destruct m; simpl; [by rewrite <- (assoc_L (++))|by rewrite app_nil_r].
Qed.

Lemma check_entries_raises before entry after e vulnerabilities :
  Forall lookup_returns before → lookup_raises e entry →
  check_entries (before ++ entry :: after) vulnerabilities = Raise e.
Proof.
  intros Hbefore Hentry. revert vulnerabilities.
  induction Hbefore as [|x before [m Hm] _ IH]; intros vulnerabilities; simpl.
  - by rewrite Hentry.
  - rewrite Hm. simpl. apply IH.
Qed.

(** A list of lookups either all return, or has a first one that raises. *)
Lemma first_raise (entries : list (tag * Dependency)) :
  Forall lookup_returns entries ∨
  ∃ before entry after e,
    entries = (before ++ entry :: after)%list ∧
    Forall lookup_returns before ∧ lookup_raises e entry.
Proof.
  induction entries as [|entry entries IH]; [by left|].
  destruct (advisory_match entry) as [m|e] eqn:Hentry.
  - destruct IH as [Hall|(before & x & after & e & -> & Hbefore & Hx)].
    + left. constructor; [by exists m|done].
    + right. exists (entry :: before), x, after, e.
      split; [done|]. split; [|done]. constructor; [by exists m|done].
  - right. by exists [], entry, entries, e.
Qed.

(** X9. The advisory check visits the npm, yarn and python lists in that
    order, one lookup per recorded dependency, repeats included.  When it
    returns, its result is exactly the matches of the successful lookups
    with a non-empty body, in the order of the dependencies, each carrying
    the name, list and version of its dependency.  When it raises, the
    exception is that of the first lookup that raises, and every later
    dependency goes unchecked. *)
Theorem check_vulnerabilities_in_order (self : DependencyScanner) :
  let entries := tagged (dependencies self) in
  (∀ vulnerabilities,
      check_vulnerabilities requests_get self = Ok vulnerabilities ↔
      Forall lookup_returns entries ∧ vulnerabilities = omap found_match entries) ∧
  (∀ e,
      check_vulnerabilities requests_get self = Raise e ↔
      ∃ before entry after,
        entries = (before ++ entry :: after)%list ∧
        Forall lookup_returns before ∧ lookup_raises e entry).
Proof.
  intros entries. rewrite check_vulnerabilities_entries. fold entries.
  destruct (first_raise entries) as [Hall|(before & entry & after & e' & Hsplit & Hbefore & He')].
  - rewrite (check_entries_returns _ [] Hall). simpl. split.
    + intros vs. split; [by intros [= <-]|by intros [_ ->]].
    + intros e. split; [done|]. intros (before & entry & after & Hsplit & _ & He).
      exfalso. rewrite Hsplit in Hall. apply Forall_app in Hall as [_ Hall].
      apply Forall_cons in Hall as [[m Hm] _]. unfold lookup_raises in He. congruence.
  - rewrite Hsplit, (check_entries_raises _ _ _ _ [] Hbefore He'). split.
    + intros vs. split; [done|]. intros [Hall _]. exfalso.
      apply Forall_app in Hall as [_ Hall]. apply Forall_cons in Hall as [[m Hm] _].
      unfold lookup_raises in He'. congruence.
    + intros e. split.
      * intros [= <-]. by exists before, entry, after.
      * intros (before2 & entry2 & after2 & Hsplit2 & Hbefore2 & He).
        f_equal. clear Hsplit. revert before2 Hsplit2 Hbefore2.
        induction Hbefore as [|x before [m Hm] _ IH]; intros [|y before2] Hsplit2 Hbefore2;
          simplify_eq/=.
        -- unfold lookup_raises in *. congruence.
        -- apply Forall_cons in Hbefore2 as [[m Hm] _]. unfold lookup_raises in *. congruence.
        -- unfold lookup_raises in *. congruence.
        -- apply Forall_cons in Hbefore2 as [_ Hbefore2]. by eapply IH.
Qed.

Lemma scan_outcome_clone_ext clone1 clone2 url nm :
  clone1 url = clone2 url →
  scan_outcome json_loads clone1 requests_get url nm =
  scan_outcome json_loads clone2 requests_get url nm.
Proof.
  intros Hurl. unfold scan_outcome, scan_stages, clone_repository. simpl. by rewrite Hurl.
Qed.

(** X10. An excluded repository is never cloned: the batch is the same for
    any two clone collaborators that agree on the repositories that are not
    excluded, whatever they would do with the excluded ones. *)
Theorem excluded_repositories_never_cloned (EXCLUDED_REPOS : list string)
    (repos : list Repo) (clone1 clone2 : string → result node) :
  (∀ repo, repo ∈ repos → repo_listed_name repo ∉ EXCLUDED_REPOS →
           clone1 (clone_url repo) = clone2 (clone_url repo)) →
  main json_loads clone1 requests_get EXCLUDED_REPOS repos =
  main json_loads clone2 requests_get EXCLUDED_REPOS repos.
Proof.
  intros Hagree. unfold main. rewrite !main_loop_results. do 2 f_equal.
  apply list_fmap_ext. intros i repo Hrepo.
  apply list_elem_of_lookup_2, list_elem_of_filter in Hrepo as [Hkept Hrepo].
  apply scan_outcome_clone_ext. by apply Hagree.
Qed.

(** ** The repository listing: [get_organization_repos] *)

(** [requests.get] on the organisation's repositories, for one page of 100. *)
Variable list_repos_page : string -> nat -> result Response.

(** The items [list.extend] takes from an object read from JSON. *)
Definition py_iter (v : json) : result (list json) :=
  match v with
  | JArr xs => Ok xs
  | JObj kvs => Ok (map (λ kv, JStr kv.1) kvs)
  | JStr s => Ok (map (λ c, JStr (String c EmptyString)) (list_ascii_of_string s))
  | _ => Raise "TypeError: object is not iterable"
  end.

(** The [while True] loop, from [page] with the [repos] gathered so far;
    [None] when [fuel] iterations were not enough to leave it. *)
Fixpoint get_organization_repos_from (fuel : nat) (org_name : string) (page : nat)
    (repos : list json) : option (result (list json)) :=
  match fuel with
  | O => None
  | S fuel =>
      match list_repos_page org_name page with
      | Raise e => Some (Raise e)
      | Ok response =>
          if negb (status_code response =? 200)%Z then Some (Ok repos)
          else
            match response_json response with
            | Raise e => Some (Raise e)
            | Ok page_repos =>
                if negb (py_truthy page_repos) then Some (Ok repos)
                else
                  match py_iter page_repos with
                  | Raise e => Some (Raise e)
                  | Ok items =>
                      get_organization_repos_from fuel org_name (S page) (repos ++ items)%list
                  end
            end
      end
  end.

Definition get_organization_repos (fuel : nat) (org_name : string) : option (result (list json)) :=
  get_organization_repos_from fuel org_name 1 [].

(** A page that carries on: status 200 with a non-empty array. *)
Definition full_page (org_name : string) (page : nat) (items : list json) : Prop :=
  items ≠ [] ∧
  list_repos_page org_name page = Ok {| status_code := 200; response_json := Ok (JArr items) |}.

(** A page that ends the listing: a status other than 200, or an empty body. *)
Definition last_page (org_name : string) (page : nat) : Prop :=
  ∃ response, list_repos_page org_name page = Ok response ∧
    (status_code response ≠ 200%Z ∨
     ∃ v, response_json response = Ok v ∧ py_truthy v = false).

Lemma get_organization_repos_from_pages org_name pages :
  ∀ fuel page repos,
    (∀ i items, pages !! i = Some items → full_page org_name (page + i) items) →
    last_page org_name (page + length pages) →
    length pages < fuel →
    get_organization_repos_from fuel org_name page repos = Some (Ok (repos ++ concat pages)%list).
Proof.
  induction pages as [|items pages IH]; intros fuel page repos Hpages Hlast Hfuel.
  - destruct fuel as [|fuel]; [simpl in Hfuel; lia|]. simpl.
    destruct Hlast as (response & Hresponse & Hstop).
    rewrite Nat.add_0_r in Hresponse. rewrite Hresponse, app_nil_r.
    destruct (status_code response =? 200)%Z eqn:Hstatus; simpl; [|done].
    destruct Hstop as [Hstop|(v & -> & ->)]; [|done].
    by apply Z.eqb_eq in Hstatus.
  - destruct fuel as [|fuel]; [simpl in Hfuel; lia|]. simpl.
    destruct (Hpages 0 items eq_refl) as [Hne Hpage].
    rewrite Nat.add_0_r in Hpage. rewrite Hpage. simpl.
    destruct items as [|item items]; [done|]. simpl.
    rewrite IH.
    + by rewrite <- (assoc_L (++)).
    + intros i its Hi. specialize (Hpages (S i) its Hi).
      by rewrite Nat.add_succ_r in Hpages.
    + simpl in Hlast. by rewrite Nat.add_succ_r in Hlast.
    + simpl in Hfuel. lia.
Qed.

(** X11. The listing gathers the pages in order, from page 1, and stops at
    the first page that is not a success or is empty: given enough
    iterations it returns the items of the pages before that one, so a
    failing request after some pages yields the partial listing as if it
    were complete, and one on the first page yields the empty listing.
    Nothing else ends the loop: while every page is a non-empty array, no
    number of iterations makes it return. *)
Theorem get_organization_repos_pages (org_name : string) :
  (∀ pages fuel,
      (∀ i items, pages !! i = Some items → full_page org_name (S i) items) →
      last_page org_name (S (length pages)) →
      length pages < fuel →
      get_organization_repos fuel org_name = Some (Ok (concat pages))) ∧
  ((∀ page, ∃ items, full_page org_name page items) →
   ∀ fuel, get_organization_repos fuel org_name = None).
Proof.
  split.
  - intros pages fuel Hpages Hlast Hfuel. unfold get_organization_repos.
    by rewrite (get_organization_repos_from_pages org_name pages fuel 1 []).
  - intros Hfull fuel. unfold get_organization_repos. generalize 1 (@nil json).
    induction fuel as [|fuel IH]; intros page repos; [done|]. simpl.
    destruct (Hfull page) as (items & Hne & ->). simpl.
    destruct items; [done|]. apply IH.
Qed.

(** ** The reporter's figures ([reporter.py])

    The reporter prints; what is modelled is the data it prints. *)

(** [key in result] *)
Definition has_key (key : string) (r : ScanResult) : bool := mem key (keys r).

(** [result.get('vulnerabilities', [])] *)
Definition get_vulnerabilities (r : ScanResult) : list VulnerabilityMatch :=
  match r with
  | Scanned _ _ vulnerabilities => vulnerabilities
  | Errored _ _ => []
  end.

(** [print_repo_summary]: the figures of its three rows, total, successful
    and failed scans. *)
Definition print_repo_summary (results : list ScanResult) : nat * nat * nat :=
  let total_repos := length results in
  let successful_scans := length (filter (λ r, has_key "error" r = false) results) in
  let failed_scans := total_repos - successful_scans in
  (total_repos, successful_scans, failed_scans).

(** [print_dependency_summary]: the rows of its table, a repository with
    the sizes of its npm, yarn and python lists. *)
Definition print_dependency_summary (results : list ScanResult)
    : list (string * nat * nat * nat) :=
  omap (λ result,
          if has_key "error" result then None
          else match result with
               | Scanned nm deps _ =>
                   Some (nm, length (npm_deps deps), length (yarn_deps deps),
                         length (python_deps deps))
               | Errored _ _ => None
               end)
       results.

(** What [print_vulnerability_report] builds before printing: the branches
    of its tree (a repository, its number of matches, and for each match the
    dependency and its list) and its two counters. *)
Record VulnerabilityReport : Type := {
  branches : list (string * nat * list (string * tag));
  total_vulnerabilities : nat;
  repos_with_vulns : nat;
}.

Definition report_result (report : VulnerabilityReport) (result : ScanResult)
    : VulnerabilityReport :=
  if has_key "error" result then report
  else
    let repo_vulns := get_vulnerabilities result in
    match repo_vulns with
    | [] => report
    | _ =>
        {| branches :=
             (branches report ++
              [(result_name result, length repo_vulns,
                map (λ vuln, (vm_dependency vuln, vm_type vuln)) repo_vulns)])%list;
           total_vulnerabilities := total_vulnerabilities report + length repo_vulns;
           repos_with_vulns := repos_with_vulns report + 1 |}
    end.

Definition print_vulnerability_report (results : list ScanResult) : VulnerabilityReport :=
  fold_left report_result results
    {| branches := []; total_vulnerabilities := 0; repos_with_vulns := 0 |}.

(** The panel is printed when [total_vulnerabilities > 0]; otherwise the
    line that says no vulnerabilities were found. *)
Definition says_none_found (report : VulnerabilityReport) : bool :=
  negb (0 <? total_vulnerabilities report)%nat.

Definition raises {A} (r : result A) : bool :=
  match r with
  | Ok _ => false
  | Raise _ => true
  end.

Lemma length_filter_complement {A} (f : A → bool) (l : list A) :
  length l = (length (filter (λ x, f x = false) l) + length (filter (λ x, f x = true) l))%nat.
Proof.
  induction l as [|x l IH]; [done|]. rewrite !filter_cons.
  destruct (f x); repeat case_decide; try done; simpl; lia.
Qed.

Lemma length_filter_fmap {A B} (g : A → B) (f : B → bool) (h : A → bool) (l : list A) :
  (∀ x, f (g x) = h x) →
  length (filter (λ y, f y = false) (map g l)) = length (filter (λ x, h x = false) l).
Proof.
  intros Hfg. induction l as [|x l IH]; [done|]. simpl. rewrite !filter_cons, Hfg.
  by destruct (h x); repeat case_decide; simpl; rewrite ?IH.
Qed.

Lemma scan_outcome_error url nm :
  has_key "error" (scan_outcome json_loads clone_from requests_get url nm)
  = raises (scan_stages json_loads clone_from requests_get url nm).
Proof.
  unfold scan_outcome, scan_stages, clone_repository. simpl.
  destruct (clone_from url) as [fs|]; simpl; [|done].
  by destruct (check_vulnerabilities _ _).
Qed.

Lemma dependency_rows_length results :
  length (print_dependency_summary results)
  = length (filter (λ r, has_key "error" r = false) results).
Proof.
  unfold print_dependency_summary.
  induction results as [|[nm deps vs|nm e] results IH]; [done| |];
    rewrite filter_cons; csimpl; by rewrite IH.
Qed.

(** X12. After a batch, the summary's figures are those of the listing:
    the total is the number of repositories that are not excluded, the
    failed scans are those among them whose scan raised, the successful
    ones are the rest, and the dependency table has one row per successful
    scan. *)
Theorem summary_of_the_batch (EXCLUDED_REPOS : list string) (repos : list Repo)
    (results : list ScanResult) :
  main json_loads clone_from requests_get EXCLUDED_REPOS repos = Ok results →
  let kept := filter (not_excluded EXCLUDED_REPOS) repos in
  let raised repo :=
    raises (scan_stages json_loads clone_from requests_get
              (clone_url repo) (repo_listed_name repo)) in
  print_repo_summary results =
    (length kept,
     length (filter (λ repo, raised repo = false) kept),
     length (filter (λ repo, raised repo = true) kept)) ∧
  length (print_dependency_summary results)
    = length (filter (λ repo, raised repo = false) kept).
Proof.
  intros Hmain kept raised. unfold main in Hmain. rewrite main_loop_results in Hmain.
  injection Hmain as <-. simpl. fold kept. unfold print_repo_summary.
  rewrite dependency_rows_length, length_map.
  rewrite (length_filter_fmap _ (has_key "error") raised)
    by (intros repo; apply scan_outcome_error).
  split; [|done]. f_equal.
  assert (∀ a b c : nat, a = (b + c)%nat → (a - b)%nat = c) as Hminus by (intros; lia).
  apply Hminus, (length_filter_complement raised kept).
Qed.

Lemma report_result_fold results report :
  let found := filter (λ r, has_key "error" r = false ∧ get_vulnerabilities r ≠ []) results in
  fold_left report_result results report =
    {| branches :=
         (branches report ++
          map (λ r, (result_name r, length (get_vulnerabilities r),
                     map (λ vuln, (vm_dependency vuln, vm_type vuln))
                         (get_vulnerabilities r))) found)%list;
       total_vulnerabilities :=
         total_vulnerabilities report
         + sum_list (map (λ r, length (get_vulnerabilities r)) found);
       repos_with_vulns := repos_with_vulns report + length found |}.
Proof.
  revert report. induction results as [|r results IH]; intros report; simpl.
  - destruct report. simpl. by rewrite app_nil_r, !Nat.add_0_r.
  - rewrite IH. rewrite filter_cons. unfold report_result.
    destruct (has_key "error" r) eqn:Herror.
    + by rewrite decide_False by (by intros [? _]).
    + destruct (get_vulnerabilities r) as [|v vs] eqn:Hvs.
      * by rewrite decide_False by (by intros [_ ?]).
      * rewrite decide_True by done. simpl. rewrite Hvs. simpl.
        f_equal; [by rewrite <- (assoc_L (++))|lia..].
Qed.

(** X13. The vulnerability report counts the matches of the scans that
    succeeded and nothing else: a result with an error changes neither the
    tree nor the counters, the number of repositories with matches never
    exceeds the number of matches, and the report says that no
    vulnerabilities were found exactly when no successful scan has a match,
    which includes the case where every scan failed. *)
Theorem vulnerability_report_counts (results : list ScanResult) :
  let report := print_vulnerability_report results in
  let found := filter (λ r, has_key "error" r = false ∧ get_vulnerabilities r ≠ []) results in
  total_vulnerabilities report = sum_list (map (λ r, length (get_vulnerabilities r)) found) ∧
  repos_with_vulns report = length found ∧
  map (λ branch, branch.1.1) (branches report) = map result_name found ∧
  (repos_with_vulns report ≤ total_vulnerabilities report)%nat ∧
  print_vulnerability_report (filter (λ r, has_key "error" r = false) results) = report ∧
  (says_none_found report = true ↔
   ∀ r, r ∈ results → has_key "error" r = true ∨ get_vulnerabilities r = []).
Proof.
  intros report found. subst report. unfold print_vulnerability_report, says_none_found.
  rewrite !report_result_fold. simpl. fold found.
  assert (length found ≤ sum_list (map (λ r, length (get_vulnerabilities r)) found))%nat
    as Hle.
  { assert (Forall (λ r, get_vulnerabilities r ≠ []) found) as Hfound
      by (apply Forall_forall; intros r [[_ Hr] _]%list_elem_of_filter; done).
    induction Hfound as [|r rest Hr _ IH]; simpl; [done|].
    destruct (get_vulnerabilities r); [done|]. simpl. lia. }
  split; [done|]. split; [done|]. split; [by rewrite map_map|]. split; [done|]. split.
  - rewrite list_filter_filter.
    rewrite (list_filter_iff _ (λ r, has_key "error" r = false ∧ get_vulnerabilities r ≠ []));
      [done|naive_solver].
  - rewrite negb_true_iff, Nat.ltb_ge. split.
    + intros Hzero r Hr.
      destruct (has_key "error" r) eqn:Herror; [by left|]. right.
      destruct (get_vulnerabilities r) as [|v vs] eqn:Hvs; [done|]. exfalso.
      assert (r ∈ found) as Hin by (apply list_elem_of_filter; by rewrite Hvs).
      assert (length found = 0) as Hlen by lia.
      apply nil_length_inv in Hlen. rewrite Hlen in Hin. by apply elem_of_nil in Hin.
    + intros Hnone. assert (found = []) as Hfound; [|by rewrite Hfound].
      apply elem_of_nil_inv. intros r [[Herror Hvs] Hr]%list_elem_of_filter.
      destruct (Hnone r Hr); congruence.
Qed.

(** ** A scan, end to end *)

(** The scanner as [clone_repository] leaves it. *)
Definition cloned_scanner (url nm : string) : DependencyScanner :=
  {| repo_url := url; repo_name := nm; repo_path := Some [];
     package_managers := ∅;
     dependencies := {| npm_deps := []; yarn_deps := []; python_deps := [] |} |}.

(** X15. The result of scanning a repository that could be cloned is a
    function of its manifests and of the advisory answers: the dependency
    lists are what the manifests contribute under the resolver's answer for
    their directories, in the order they were found; if every lookup
    returns, the result carries these lists and the matches found, in
    order; if some lookup raises, the result is the error of the first one
    that does, and the lists are not reported. *)
Theorem scan_repository_end_to_end (url nm : string) (fs : node) (files : list FileInfo) :
  clone_from url = Ok fs →
  find_dependency_files fs (cloned_scanner url nm) = Ok files →
  let ds := parse_all_uncached json_loads fs files (dependencies (cloned_scanner url nm)) in
  (Forall lookup_returns (tagged ds) →
   scan_repository json_loads clone_from requests_get url nm
     = Ok (Scanned nm ds (omap found_match (tagged ds)))) ∧
  (∀ before entry after e,
      tagged ds = (before ++ entry :: after)%list →
      Forall lookup_returns before → lookup_raises e entry →
      scan_repository json_loads clone_from requests_get url nm = Ok (Errored nm e)).
Proof.
  intros Hclone Hfiles ds.
  assert (dependencies (parse_all json_loads fs files (cloned_scanner url nm)) = ds) as Hds.
  { rewrite parse_all_contributions. apply fold_left_ext. intros acc file_info.
    unfold decision. simpl. by rewrite lookup_empty. }
  assert (scan_repository json_loads clone_from requests_get url nm =
          try_except
            (vulnerabilities ← check_entries (tagged ds) [];
             Ok (Scanned nm ds vulnerabilities))
            (λ e, Ok (Errored nm e))) as ->.
  { unfold find_dependency_files in Hfiles. simpl in Hfiles. injection Hfiles as Hfiles.
    unfold cloned_scanner in Hds.
    unfold scan_repository, scan_stages, clone_repository. simpl. rewrite Hclone. simpl.
    by rewrite Hfiles, check_vulnerabilities_entries, Hds. }
  split.
  - intros Hall. by rewrite (check_entries_returns _ [] Hall).
  - intros before entry after e -> Hbefore Hentry.
    by rewrite (check_entries_raises _ _ _ _ [] Hbefore Hentry).
Qed.

End Driver.

(** ** Further examples *)

Definition empty_dependencies : DependencySet :=
  {| npm_deps := []; yarn_deps := []; python_deps := [] |}.

Definition web_package_json : FileInfo :=
  {| fi_path := ["web"; "package.json"]; fi_type := Some npm; fi_directory := ["web"] |}.

Definition web_requirements : FileInfo :=
  {| fi_path := ["web"; "requirements.txt"]; fi_type := Some python;
     fi_directory := ["web"] |}.

(** A JavaScript project managed with yarn. *)
Definition yarn_tree : node :=
  Dir [("web", Dir [("package.json", File (Some package_json_example));
                    ("yarn.lock", File (Some lodash_lock))])].

(** Two pages of a listing: one with two items, then an empty one. *)
Definition two_pages (org_name : string) (page : nat) : result Response :=
  Ok {| status_code := 200;
        response_json := Ok (JArr (if (page =? 1)%nat then [JStr "a"; JStr "b"] else [])) |}.

Definition batch : list Repo :=
  [ {| repo_listed_name := "first"; clone_url := "bad" |};
    {| repo_listed_name := "skipped"; clone_url := "secret" |};
    {| repo_listed_name := "last"; clone_url := "good" |} ].

Definition clone_a (url : string) : result node :=
  if string_eqb url "bad" then Raise "GitCommandError" else Ok flask_tree.

Definition clone_b (url : string) : result node :=
  if string_eqb url "bad" then Raise "GitCommandError"
  else if string_eqb url "secret" then Raise "PermissionDenied"
  else Ok flask_tree.

Lemma find_dependency_files_exact_witness :
  manifest_of web_tree [] web_package_json ∧ manifest_of web_tree [] web_requirements.
Proof.
  assert (find_dependency_files web_tree (cloned_scanner "url" "repo")
          = Ok [web_package_json; web_requirements]) as Hfiles by (vm_compute; reflexivity).
  split.
  - apply (find_dependency_files_exact web_tree (cloned_scanner "url" "repo") []
             [web_package_json; web_requirements] wf_web_tree eq_refl Hfiles web_package_json).
    left.
  - apply (find_dependency_files_exact web_tree (cloned_scanner "url" "repo") []
             [web_package_json; web_requirements] wf_web_tree eq_refl Hfiles web_requirements).
    right. left.
Defined.

Lemma found_directories_never_unknown_witness : resolved (Some npm).
Proof.
  apply (found_directories_never_unknown Reader.json_loads web_tree
           (cloned_scanner "url" "repo") [web_package_json; web_requirements]
           wf_web_tree eq_refl) with (d := ["web"]).
  - vm_compute. reflexivity.
  - intros d v Hd. vm_compute in Hd. discriminate Hd.
  - vm_compute. reflexivity.
Defined.

Lemma manifest_recorded_under_decision_witness :
  dependencies (parse_dependencies Reader.json_loads yarn_tree web_package_json
                  (__init__ "url" "repo"))
  = extend yarn [{| name := "a"; version := JStr "2.0.0" |}] empty_dependencies.
Proof.
  apply (proj1 (manifest_recorded_under_decision Reader.json_loads yarn_tree web_package_json
                  (__init__ "url" "repo") package_json_example eq_refl eq_refl)).
  - reflexivity.
  - vm_compute. reflexivity.
  - vm_compute. reflexivity.
Defined.

Lemma failing_manifest_contributes_nothing_witness :
  let broken := Dir [("web", Dir [("package.json", File (Some "not json"))])] in
  dependencies (parse_dependencies Reader.json_loads broken web_package_json
                  (__init__ "url" "repo"))
  = empty_dependencies.
Proof.
  apply (proj1 (proj2 (failing_manifest_contributes_nothing Reader.json_loads))
           _ web_package_json (__init__ "url" "repo") "not json" "JSONDecodeError").
  - reflexivity.
  - reflexivity.
  - reflexivity.
  - vm_compute. reflexivity.
Defined.

Lemma excluded_repositories_never_cloned_witness :
  main Reader.json_loads clone_a refusing ["skipped"] batch =
  main Reader.json_loads clone_b refusing ["skipped"] batch.
Proof.
  apply excluded_repositories_never_cloned. intros repo Hrepo Hkept.
  unfold batch in Hrepo. rewrite !elem_of_cons in Hrepo.
  destruct Hrepo as [->|[->|[->|Hrepo]]]; [reflexivity| |reflexivity|].
  - exfalso. apply Hkept. left.
  - by apply elem_of_nil in Hrepo.
Defined.

Lemma get_organization_repos_pages_witness :
  get_organization_repos two_pages 5 "org" = Some (Ok [JStr "a"; JStr "b"]).
Proof.
  apply (proj1 (get_organization_repos_pages two_pages "org") [[JStr "a"; JStr "b"]] 5).
  - intros [|i] items Hi; [|by destruct i]. injection Hi as <-. by split.
  - eexists. split; [reflexivity|]. right. by eexists.
  - simpl. lia.
Defined.

Lemma summary_of_the_batch_witness :
  let results := [ Errored "first" "GitCommandError";
                   Scanned "last"
                     {| npm_deps := []; yarn_deps := [];
                        python_deps := [{| name := "flask"; version := unknown |}] |} [] ] in
  print_repo_summary results = (2, 1, 1) ∧ length (print_dependency_summary results) = 1.
Proof.
  intros results.
  pose proof (summary_of_the_batch Reader.json_loads clone_a refusing ["skipped"] batch results)
    as Hsummary.
  assert (main Reader.json_loads clone_a refusing ["skipped"] batch = Ok results) as Hmain
    by (vm_compute; reflexivity).
  apply Hsummary in Hmain. vm_compute in Hmain. exact Hmain.
Defined.

Lemma cache_is_transparent_witness :
  dependencies (parse_all Reader.json_loads yarn_tree [web_package_json]
                  (__init__ "url" "repo"))
  = parse_all_uncached Reader.json_loads yarn_tree [web_package_json] empty_dependencies.
Proof.
  apply (cache_is_transparent Reader.json_loads yarn_tree [web_package_json]
           (__init__ "url" "repo")).
  intros d pm Hd. simpl in Hd. by rewrite lookup_empty in Hd.
Defined.

Lemma scan_repository_end_to_end_witness :
  scan_repository Reader.json_loads cloned refusing "url" "repo" =
    Ok (Scanned "repo"
          {| npm_deps := []; yarn_deps := [];
             python_deps := [{| name := "flask"; version := unknown |}] |} []).
Proof.
  apply (proj1 (scan_repository_end_to_end Reader.json_loads cloned refusing "url" "repo"
                  flask_tree [requirements_info] eq_refl eq_refl)).
  repeat constructor. by eexists.
Defined.
